(** * The reverse page-table walker [page_vma_mapped_walk]

    A shallow embedding of mm/page_vma_mapped.c (the variant with PUD-sized
    transparent huge pages) and the properties of its walker.

    The C function is a resumable search written with [goto]; it is embedded
    as a machine whose program points are the labels and loop heads of the
    source.  Page tables are shared with other CPUs: they are given as one
    snapshot per instant, and the walker's clock advances each time it takes
    a lock (the places where the source itself expects to see a concurrent
    split).  Locks and leaf-table mappings are resources; the ledger fields
    [held] and [kmapped] record what [spin_lock]/[spin_unlock] and
    [pte_offset_map]/[pte_unmap] did to them. *)

From Stdlib Require Import ZArith List Bool Lia.
Import ListNotations.
Local Open Scope Z_scope.

(** ** Machine integers *)

(** [unsigned long] arithmetic wraps modulo 2^64. *)
Definition ulong (z : Z) : Z := z mod 2 ^ 64.

(** ** Walk flags *)

(** Modelled from the spec: the flag bitset {Sync, MigrationAware}; the
    header numbering the bits is not among the sources.  Bit 0 is Sync and
    bit 1 is MigrationAware. *)
Definition PVMW_SYNC : Z := 1.
Definition PVMW_MIGRATION : Z := 2.

(** [flags & bit] used as a C truth value. *)
Definition flag_set (flags bit : Z) : bool := negb (Z.land flags bit =? 0).

(** ** Pages and regions *)

(** Modelled from the spec: [struct page] and the page queries
    ([page_to_pfn], [PageHuge], [PageTransCompound], [PageTransHuge],
    [compound_order], [hpage_nr_pages], [page_size]), whose headers are not
    among the sources: the frame number, whether the page is compound,
    whether it is hugetlbfs-backed, and its frame count.  [page_to_pfn] also
    serves as the identity of the page when two page pointers are compared,
    and [page_index] is the file offset [__vma_address] starts from. *)
Record struct_page := {
  page_to_pfn : Z;
  page_index : Z;
  PageHuge : bool;
  PageTransCompound : bool;
  PageTransHuge : bool;
  compound_order : Z;
  hpage_nr_pages : Z;
  page_size : Z
}.

(** Table-entry pointers; a field of the walk state that may be NULL is an
    [option ptr], and [p + 1] is the next entry of the same table. *)
Definition ptr := Z.

(** Modelled from the spec: the swap-entry codec of linux/swapops.h, which
    is not among the sources.  A swap-style entry decodes to a frame number
    and is a migration placeholder, a device-private placeholder, or
    something else. *)
Inductive swp_kind := SwpMigration | SwpDevicePrivate | SwpOther.

Record swp_entry_t := { swp_type : swp_kind; swp_offset : Z }.

Definition is_migration_entry (e : swp_entry_t) : bool :=
  match swp_type e with SwpMigration => true | _ => false end.
Definition is_device_private_entry (e : swp_entry_t) : bool :=
  match swp_type e with SwpDevicePrivate => true | _ => false end.
Definition migration_entry_to_pfn (e : swp_entry_t) : Z := swp_offset e.
Definition device_private_entry_to_pfn (e : swp_entry_t) : Z := swp_offset e.

(** Modelled from the spec: the entries of the five table levels and their
    predicates (present, absent, collapsed huge mapping, swap-encoded
    placeholder), which the architecture headers define.  An entry is
    exactly one of the kinds the walker tells apart; a leaf entry is a swap
    entry when it is neither empty nor present. *)
Record pgd_t := { pgd_present : bool }.
Record p4d_t := { p4d_present : bool }.

Inductive pud_t :=
| PudNone
| PudTable
| PudTransHuge (pg : Z).

Inductive pmd_t :=
| PmdNone
| PmdTable
| PmdTransHuge (pfn : Z)
| PmdSwap (e : swp_entry_t).

Inductive pte_t :=
| PteNone
| PtePresent (pfn : Z)
| PteSwap (e : swp_entry_t).

Definition pud_trans_huge (e : pud_t) : bool :=
  match e with PudTransHuge _ => true | _ => false end.
Definition pud_present (e : pud_t) : bool :=
  match e with PudNone => false | _ => true end.
(** The page a collapsed level-3 entry maps, named by its first frame. *)
Definition pud_page (e : pud_t) : Z :=
  match e with PudTransHuge pg => pg | _ => 0 end.

Definition pmd_trans_huge (e : pmd_t) : bool :=
  match e with PmdTransHuge _ => true | _ => false end.
Definition pmd_present (e : pmd_t) : bool :=
  match e with PmdTable | PmdTransHuge _ => true | _ => false end.
Definition pmd_none (e : pmd_t) : bool :=
  match e with PmdNone => true | _ => false end.
Definition pmd_pfn (e : pmd_t) : Z :=
  match e with PmdTransHuge pfn => pfn | _ => 0 end.
Definition pmd_to_swp_entry (e : pmd_t) : swp_entry_t :=
  match e with
  | PmdSwap s => s
  | _ => {| swp_type := SwpOther; swp_offset := 0 |}
  end.

Definition pte_none (e : pte_t) : bool :=
  match e with PteNone => true | _ => false end.
Definition pte_present (e : pte_t) : bool :=
  match e with PtePresent _ => true | _ => false end.
(** [is_swap_pte]: neither empty nor present. *)
Definition is_swap_pte (e : pte_t) : bool :=
  negb (pte_none e) && negb (pte_present e).
Definition pte_pfn (e : pte_t) : Z :=
  match e with PtePresent pfn => pfn | _ => 0 end.
Definition pte_to_swp_entry (e : pte_t) : swp_entry_t :=
  match e with
  | PteSwap s => s
  | _ => {| swp_type := SwpOther; swp_offset := 0 |}
  end.

(** One snapshot of an address space's page tables: the directory lookups by
    address, which headers outside the sources provide and which are taken
    as parameters here, and the contents of the entries they lead to.
    [huge_pte_offset] is NULL when the hugetlbfs lookup finds no entry. *)
Record pgtables := {
  pgd_offset : Z -> ptr;
  pgd_val : ptr -> pgd_t;
  p4d_offset : ptr -> Z -> ptr;
  p4d_val : ptr -> p4d_t;
  pud_offset : ptr -> Z -> ptr;
  pud_val : ptr -> pud_t;
  pmd_offset : ptr -> Z -> ptr;
  pmd_val : ptr -> pmd_t;
  pte_offset_map : ptr -> Z -> ptr;
  pte_val : ptr -> pte_t;
  huge_pte_offset : Z -> Z -> option ptr
}.

(** The address space as other CPUs leave it at each instant. *)
Definition mm_struct := nat -> pgtables.

Record vm_area_struct := {
  vm_start : Z;
  vm_end : Z;
  vm_pgoff : Z;
  vm_mm : mm_struct
}.

(** The locks the walker can take, named by the entry they are derived
    from. *)
Inductive spinlock :=
| pud_lockptr (pud : ptr)
| pmd_lockptr (pmd : ptr)
| pte_lockptr (pmd : ptr)
| huge_pte_lockptr (pte : ptr).

Definition spinlock_eqb (a b : spinlock) : bool :=
  match a, b with
  | pud_lockptr x, pud_lockptr y
  | pmd_lockptr x, pmd_lockptr y
  | pte_lockptr x, pte_lockptr y
  | huge_pte_lockptr x, huge_pte_lockptr y => x =? y
  | _, _ => false
  end.

(** ** The walk state

    [struct page_vma_mapped_walk], followed by the clock and the resource
    ledger. *)
Record pvmw := mk_pvmw {
  page : struct_page;
  vma : vm_area_struct;
  address : Z;
  flags : Z;
  pud : option ptr;
  pmd : option ptr;
  pte : option ptr;
  ptl : option spinlock;
  now : nat;
  held : list spinlock;
  kmapped : nat
}.

Definition set_address (a : Z) (s : pvmw) : pvmw :=
  mk_pvmw (page s) (vma s) a (flags s) (pud s) (pmd s) (pte s) (ptl s)
          (now s) (held s) (kmapped s).
Definition set_pud (p : option ptr) (s : pvmw) : pvmw :=
  mk_pvmw (page s) (vma s) (address s) (flags s) p (pmd s) (pte s) (ptl s)
          (now s) (held s) (kmapped s).
Definition set_pmd (p : option ptr) (s : pvmw) : pvmw :=
  mk_pvmw (page s) (vma s) (address s) (flags s) (pud s) p (pte s) (ptl s)
          (now s) (held s) (kmapped s).
Definition set_pte (p : option ptr) (s : pvmw) : pvmw :=
  mk_pvmw (page s) (vma s) (address s) (flags s) (pud s) (pmd s) p (ptl s)
          (now s) (held s) (kmapped s).
Definition set_ptl (l : option spinlock) (s : pvmw) : pvmw :=
  mk_pvmw (page s) (vma s) (address s) (flags s) (pud s) (pmd s) (pte s) l
          (now s) (held s) (kmapped s).

(** The page tables as they are now. *)
Definition tables (s : pvmw) : pgtables := vm_mm (vma s) (now s).

Fixpoint release (l : spinlock) (ls : list spinlock) : list spinlock :=
  match ls with
  | [] => []
  | x :: r => if spinlock_eqb l x then r else x :: release l r
  end.

(** Taking a lock may wait for other CPUs: the clock advances. *)
Definition spin_lock (l : spinlock) (s : pvmw) : pvmw :=
  mk_pvmw (page s) (vma s) (address s) (flags s) (pud s) (pmd s) (pte s)
          (ptl s) (S (now s)) (l :: held s) (kmapped s).
Definition spin_unlock (l : spinlock) (s : pvmw) : pvmw :=
  mk_pvmw (page s) (vma s) (address s) (flags s) (pud s) (pmd s) (pte s)
          (ptl s) (now s) (release l (held s)) (kmapped s).

(** The ledger side of [pte_offset_map] and of [pte_unmap]: the number of
    leaf-table mappings the walk holds.  Unmapping when none is held (which
    the source does for the stale handle a restart leaves in [pte], and for
    the hugetlbfs entry) leaves the count at zero. *)
Definition kmap (s : pvmw) : pvmw :=
  mk_pvmw (page s) (vma s) (address s) (flags s) (pud s) (pmd s) (pte s)
          (ptl s) (now s) (held s) (S (kmapped s)).
Definition pte_unmap (s : pvmw) : pvmw :=
  mk_pvmw (page s) (vma s) (address s) (flags s) (pud s) (pmd s) (pte s)
          (ptl s) (now s) (held s) (Nat.pred (kmapped s)).

(** [pud_lock] and [pmd_lock] take the lock and return it; the callers store
    it in [ptl]. *)
Definition pud_lock (p : ptr) (s : pvmw) : pvmw :=
  set_ptl (Some (pud_lockptr p)) (spin_lock (pud_lockptr p) s).
Definition pmd_lock (p : ptr) (s : pvmw) : pvmw :=
  set_ptl (Some (pmd_lockptr p)) (spin_lock (pmd_lockptr p) s).

(** [if (pvmw->ptl) { spin_unlock(pvmw->ptl); pvmw->ptl = NULL; }] *)
Definition drop_ptl (s : pvmw) : pvmw :=
  match ptl s with
  | Some l => set_ptl None (spin_unlock l s)
  | None => s
  end.

(** Modelled from the spec: [page_vma_mapped_walk_done], the early-stop
    cleanup declared in a header that is not among the sources.  It unmaps
    the leaf table if the leaf handle is set and releases the lock if one is
    recorded, and clears both fields. *)
Definition page_vma_mapped_walk_done (s : pvmw) : pvmw :=
  let s := match pte s with
           | Some _ => set_pte None (pte_unmap s)
           | None => s
           end in
  drop_ptl s.

(** ** Platform constants *)

(** The constants and the address computation that come from headers outside
    the sources. *)
Record platform := {
  PAGE_SIZE : Z;
  PMD_SIZE : Z;
  PUD_SIZE : Z;
  HPAGE_PMD_SIZE : Z;
  HPAGE_PUD_ORDER : Z;
  thp_migration_supported : bool;
  __vma_address : struct_page -> vm_area_struct -> Z
}.

(** Program points of [page_vma_mapped_walk]: the function entry, the three
    labels [restart], [next_pmd] and [next_pte] with [pte_level], the heads
    of the two [while (1)] loops and the bodies of the two [do] loops. *)
Inductive label :=
| L_entry
| L_restart
| L_pmd_check
| L_next_pmd
| L_pmd_skip
| L_pte_level
| L_pte_check
| L_next_pte
| L_pte_skip.

(** What a basic block does: return to the caller, jump, or dereference a
    NULL handle. *)
Inductive outcome :=
| Return (b : bool) (s : pvmw)
| Goto (l : label) (s : pvmw)
| Oops.

Inductive result :=
| Done (b : bool) (s : pvmw)
| Fault
| Timeout.

Definition is_null {A} (p : option A) : bool :=
  match p with None => true | Some _ => false end.

Section Walker.

Variable cfg : platform.

Definition not_found (s : pvmw) : outcome :=
  Return false (page_vma_mapped_walk_done s).

Definition map_pte (s : pvmw) : option (bool * pvmw) :=
  match pmd s with
  | None => None
  | Some pm =>
    let p := pte_offset_map (tables s) pm (address s) in
    let s := kmap (set_pte (Some p) s) in
    let e := pte_val (tables s) p in
    let absent :=
      if negb (flag_set (flags s) PVMW_SYNC) then
        if flag_set (flags s) PVMW_MIGRATION then
          negb (is_swap_pte e)
        else if is_swap_pte e then
          negb (is_device_private_entry (pte_to_swp_entry e))
        else negb (pte_present e)
      else false in
    if absent then Some (false, s)
    else Some (true, spin_lock (pte_lockptr pm)
                       (set_ptl (Some (pte_lockptr pm)) s))
  end.

(** Modelled from the spec: [is_pmd_migration_entry], recognised only when
    the platform supports huge-page migration placeholders. *)
Definition is_pmd_migration_entry (e : pmd_t) : bool :=
  thp_migration_supported cfg && negb (pmd_present e)
  && is_migration_entry (pmd_to_swp_entry e).

Definition map_pmd (s : pvmw) : option (bool * pvmw) :=
  match pud s with
  | None => None
  | Some pu =>
    let p := pmd_offset (tables s) pu (address s) in
    let s := set_pmd (Some p) s in
    let pmde := pmd_val (tables s) p in
    if pmd_trans_huge pmde || is_pmd_migration_entry pmde then
      Some (true, pmd_lock p s)
    else if negb (pmd_present pmde) then Some (false, s)
    else Some (true, pmd_lock p s)
  end.

Definition pfn_is_match (pg : struct_page) (pfn : Z) : bool :=
  let page_pfn := page_to_pfn pg in
  if negb (PageTransCompound pg) || PageHuge pg then page_pfn =? pfn
  else (pfn >=? page_pfn)
       && (ulong (pfn - page_pfn) <? ulong (hpage_nr_pages pg)).

Definition check_pte (s : pvmw) : option bool :=
  match pte s with
  | None => None
  | Some p =>
    let e := pte_val (tables s) p in
    if flag_set (flags s) PVMW_MIGRATION then
      if negb (is_swap_pte e) then Some false
      else
        let entry := pte_to_swp_entry e in
        if negb (is_migration_entry entry) then Some false
        else Some (pfn_is_match (page s) (migration_entry_to_pfn entry))
    else if is_swap_pte e then
      let entry := pte_to_swp_entry e in
      if negb (is_device_private_entry entry) then Some false
      else Some (pfn_is_match (page s) (device_private_entry_to_pfn entry))
    else
      if negb (pte_present e) then Some false
      else Some (pfn_is_match (page s) (pte_pfn e))
  end.

(** 0: not mapped, 1: pmd_page, 2: pmd *)
Definition check_pmd (s : pvmw) : option (Z * pvmw) :=
  match pmd s with
  | None => None
  | Some p =>
    let e := pmd_val (tables s) p in
    if pmd_trans_huge e then
      if flag_set (flags s) PVMW_MIGRATION then Some (0, s)
      else if negb (pfn_is_match (page s) (pmd_pfn e)) then Some (0, s)
      else Some (1, s)
    else if negb (pmd_present e) then
      if thp_migration_supported cfg then
        if negb (flag_set (flags s) PVMW_MIGRATION) then Some (0, s)
        else if is_migration_entry (pmd_to_swp_entry e) then
          if negb (pfn_is_match (page s)
                     (migration_entry_to_pfn (pmd_to_swp_entry e)))
          then Some (0, s)
          else Some (1, s)
        else Some (0, s)
      else Some (0, s)
    else
      match ptl s with
      | None => None
      | Some l => Some (2, set_ptl None (spin_unlock l s))
      end
  end.

(** The end of the target's own address range, [__vma_address(page, vma) +
    hpage_nr_pages(page) * PAGE_SIZE]. *)
Definition page_span_end (s : pvmw) : Z :=
  ulong (__vma_address cfg (page s) (vma s)
         + ulong (hpage_nr_pages (page s) * PAGE_SIZE cfg)).

(** The exit test of both skip loops. *)
Definition exhausted (s : pvmw) : bool :=
  (address s >=? vm_end (vma s)) || (address s >=? page_span_end s).

(** From [map_pmd] to the head of the level-2 loop. *)
Definition resolve_pmd (s : pvmw) : outcome :=
  match map_pmd s with
  | None => Oops
  | Some (false, s) => Goto L_next_pmd s
  | Some (true, s) => Goto L_pmd_check s
  end.

Definition step (l : label) (s : pvmw) : outcome :=
  match l with
  | L_entry =>
    if is_null (pte s) && is_null (pmd s) && negb (is_null (pud s)) then
      not_found s
    else if negb (is_null (pmd s)) && is_null (pte s) then Goto L_next_pmd s
    else if negb (is_null (pte s)) then Goto L_next_pte s
    else if PageHuge (page s) then
      let r := huge_pte_offset (tables s) (address s) (page_size (page s)) in
      let s := set_pte r s in
      match r with
      | None => Return false s
      | Some p =>
        let s := spin_lock (huge_pte_lockptr p)
                   (set_ptl (Some (huge_pte_lockptr p)) s) in
        match check_pte s with
        | None => Oops
        | Some false => not_found s
        | Some true => Return true s
        end
      end
    else Goto L_restart s
  | L_restart =>
    let pgd := pgd_offset (tables s) (address s) in
    if negb (pgd_present (pgd_val (tables s) pgd)) then Return false s
    else
      let p4d := p4d_offset (tables s) pgd (address s) in
      if negb (p4d_present (p4d_val (tables s) p4d)) then Return false s
      else
        let pu := pud_offset (tables s) p4d (address s) in
        let s := set_pud (Some pu) s in
        let pude := pud_val (tables s) pu in
        if pud_trans_huge pude then
          let s := pud_lock pu s in
          if pud_trans_huge (pud_val (tables s) pu) then
            if flag_set (flags s) PVMW_MIGRATION then not_found s
            else if negb (pud_page (pud_val (tables s) pu)
                          =? page_to_pfn (page s))
            then not_found s
            else Return true s
          else
            resolve_pmd (set_ptl None (spin_unlock (pud_lockptr pu) s))
        else if negb (pud_present pude) then Return false s
        else resolve_pmd s
  | L_pmd_check =>
    match check_pmd s with
    | None => Oops
    | Some (pmd_res, s) =>
      if pmd_res =? 1 then Return true s
      else if pmd_res =? 2 then Goto L_pte_level s
      else Goto L_next_pmd s
    end
  | L_next_pmd =>
    if negb (PageTransHuge (page s)
             && (compound_order (page s) =? HPAGE_PUD_ORDER cfg))
    then not_found s
    else Goto L_pmd_skip s
  | L_pmd_skip =>
    let s := set_address (ulong (address s + HPAGE_PMD_SIZE cfg)) s in
    if exhausted s then not_found s
    else if address s mod PUD_SIZE cfg =? 0 then Goto L_restart (drop_ptl s)
    else
      match pmd s with
      | None => Oops
      | Some p =>
        let s := set_pmd (Some (p + 1)) s in
        if pmd_none (pmd_val (tables s) (p + 1)) then Goto L_pmd_skip s
        else if is_null (ptl s) then Goto L_pmd_check (pmd_lock (p + 1) s)
        else Goto L_pmd_check s
      end
  | L_pte_level =>
    match map_pte s with
    | None => Oops
    | Some (false, s) => Goto L_next_pte s
    | Some (true, s) => Goto L_pte_check s
    end
  | L_pte_check =>
    match check_pte s with
    | None => Oops
    | Some true => Return true s
    | Some false => Goto L_next_pte s
    end
  | L_next_pte =>
    if negb (PageTransHuge (page s)) || PageHuge (page s) then not_found s
    else Goto L_pte_skip s
  | L_pte_skip =>
    let s := set_address (ulong (address s + PAGE_SIZE cfg)) s in
    if exhausted s then not_found s
    else if address s mod PMD_SIZE cfg =? 0 then
      Goto L_restart (drop_ptl (pte_unmap s))
    else
      match pte s with
      | None => Oops
      | Some p =>
        let s := set_pte (Some (p + 1)) s in
        if pte_none (pte_val (tables s) (p + 1)) then Goto L_pte_skip s
        else if is_null (ptl s) then
          match pmd s with
          | None => Oops
          | Some pm =>
            Goto L_pte_check
                 (spin_lock (pte_lockptr pm)
                    (set_ptl (Some (pte_lockptr pm)) s))
          end
        else Goto L_pte_check s
      end
  end.

(** Running the blocks until the function returns. *)
Fixpoint run (fuel : nat) (l : label) (s : pvmw) : result :=
  match fuel with
  | O => Timeout
  | S n =>
    match step l s with
    | Return b s' => Done b s'
    | Oops => Fault
    | Goto l' s' => run n l' s'
    end
  end.

Definition page_vma_mapped_walk (fuel : nat) (s : pvmw) : result :=
  run fuel L_entry s.

(** The walk state [page_mapped_in_vma] builds on its stack: only [page],
    [vma] and [flags] are initialised, the rest is zero. *)
Definition pvmw_init (pg : struct_page) (v : vm_area_struct) : pvmw :=
  mk_pvmw pg v 0 PVMW_SYNC None None None None O [] O.

(** The C function returns the [int] 1 or 0, here [Done true] or
    [Done false]. *)
Definition page_mapped_in_vma (fuel : nat) (pg : struct_page)
           (v : vm_area_struct) : result :=
  let pvmw0 := pvmw_init pg v in
  let start := __vma_address cfg pg v in
  let end_ := ulong (start + ulong (PAGE_SIZE cfg * (hpage_nr_pages pg - 1))) in
  if (end_ <? vm_start v) || (start >=? vm_end v) then Done false pvmw0
  else
    let s := set_address (Z.max start (vm_start v)) pvmw0 in
    match page_vma_mapped_walk fuel s with
    | Done true s' => Done true (page_vma_mapped_walk_done s')
    | r => r
    end.

End Walker.

(** ** A concrete platform and concrete address spaces

    Used to run the walker on explicit inputs. *)

(** 4 KiB pages, 2 MiB leaf tables, 1 GiB intermediate tables; the expected
    address of a page is the region start plus its file offset relative to
    the region's. *)
Definition x86_64 : platform := {|
  PAGE_SIZE := 4096;
  PMD_SIZE := 2097152;
  PUD_SIZE := 1073741824;
  HPAGE_PMD_SIZE := 2097152;
  HPAGE_PUD_ORDER := 18;
  thp_migration_supported := true;
  __vma_address := fun pg v =>
    ulong (vm_start v + (page_index pg - vm_pgoff v) * 4096)
|}.

(** Page tables laid out flat: the entry for an address at a level is found
    at the index of the address at that level, and the two top levels are
    populated everywhere. *)
Definition flat_tables (puds : Z -> pud_t) (pmds : Z -> pmd_t)
           (ptes : Z -> pte_t) (huge : Z -> option ptr) : pgtables := {|
  pgd_offset := fun a => a / 549755813888;
  pgd_val := fun _ => {| pgd_present := true |};
  p4d_offset := fun pgd _ => pgd;
  p4d_val := fun _ => {| p4d_present := true |};
  pud_offset := fun _ a => a / 1073741824;
  pud_val := puds;
  pmd_offset := fun _ a => a / 2097152;
  pmd_val := pmds;
  pte_offset_map := fun _ a => a / 4096;
  pte_val := ptes;
  huge_pte_offset := fun a _ => huge a
|}.

(** A 2 MiB transparent huge page at frames 512..1023, file offset 0. *)
Definition thp_page : struct_page := {|
  page_to_pfn := 512; page_index := 0;
  PageHuge := false; PageTransCompound := true; PageTransHuge := true;
  compound_order := 9; hpage_nr_pages := 512; page_size := 2097152
|}.

(** A 1 GiB transparent huge page at frames 262144.., file offset 0. *)
Definition pud_thp_page : struct_page := {|
  page_to_pfn := 262144; page_index := 0;
  PageHuge := false; PageTransCompound := true; PageTransHuge := true;
  compound_order := 18; hpage_nr_pages := 262144; page_size := 1073741824
|}.

(** A 2 MiB hugetlbfs page at frame 2048. *)
Definition hugetlb_page : struct_page := {|
  page_to_pfn := 2048; page_index := 0;
  PageHuge := true; PageTransCompound := true; PageTransHuge := true;
  compound_order := 9; hpage_nr_pages := 512; page_size := 2097152
|}.

(** A region of [len] bytes at [start] over the address space [mm]. *)
Definition region (start len : Z) (mm : mm_struct) : vm_area_struct := {|
  vm_start := start; vm_end := start + len; vm_pgoff := 0; vm_mm := mm
|}.

(** A first-call walk state: every handle NULL, nothing held. *)
Definition fresh_walk (pg : struct_page) (v : vm_area_struct)
           (addr fl : Z) : pvmw :=
  mk_pvmw pg v addr fl None None None None O [] O.

(** *** Address spaces and walk states for the examples

    Addresses are given in full: 1073741824 is 1 GiB, the start of the
    second level-3 entry, of level-2 entry 512 and of leaf entry 262144. *)

(** Nothing mapped anywhere. *)
Definition mm_empty : mm_struct := fun _ =>
  flat_tables (fun _ => PudNone) (fun _ => PmdNone) (fun _ => PteNone)
              (fun _ => None).

(** Two leaf entries just below 1 GiB map the first two frames of
    [thp_page]; nothing is mapped from 1 GiB on. *)
Definition mm_two_ptes : mm_struct := fun _ =>
  flat_tables (fun i => if i =? 0 then PudTable else PudNone)
              (fun _ => PmdTable)
              (fun i => if i =? 262142 then PtePresent 512
                        else if i =? 262143 then PtePresent 513
                        else PteNone)
              (fun _ => None).

Definition region_two_ptes : vm_area_struct :=
  region 1073733632 16384 mm_two_ptes.

(** The state the second call leaves behind in [region_two_ptes]: the
    second leaf entry is reported, its table mapped and locked. *)
Definition walk_two_ptes : pvmw :=
  mk_pvmw thp_page region_two_ptes 1073737728 0
          (Some 0) (Some 511) (Some 262143) (Some (pte_lockptr 511))
          2 [pte_lockptr 511] 1.

(** The state the first call leaves there, and the state in which the third
    call returns. *)
Definition walk_two_ptes_first : pvmw :=
  mk_pvmw thp_page region_two_ptes 1073733632 0
          (Some 0) (Some 511) (Some 262142) (Some (pte_lockptr 511))
          2 [pte_lockptr 511] 1.

Definition walk_two_ptes_end : pvmw :=
  mk_pvmw thp_page region_two_ptes 1073741824 0
          (Some 1) (Some 511) (Some 262143) None 2 [] 0.

(** All 512 frames of [thp_page] mapped by the leaf table at 1 GiB, inside
    a region of 4 MiB. *)
Definition mm_full_table : mm_struct := fun _ =>
  flat_tables (fun _ => PudTable) (fun _ => PmdTable)
              (fun i => if (262144 <=? i) && (i <? 262656)
                        then PtePresent (512 + (i - 262144))
                        else PteNone)
              (fun _ => None).

Definition region_full_table : vm_area_struct :=
  region 1073741824 4194304 mm_full_table.

(** The walk paused at the last leaf entry of the page. *)
Definition walk_last_pte : pvmw :=
  mk_pvmw thp_page region_full_table 1075834880 0
          (Some 1) (Some 512) (Some 262655) (Some (pte_lockptr 512))
          2 [pte_lockptr 512] 1.

(** The state in which the call resumed there returns. *)
Definition walk_last_pte_end : pvmw :=
  mk_pvmw thp_page region_full_table 1075838976 0
          (Some 1) (Some 512) None None 2 [] 0.

(** The same page mapped from 8 KiB below 1 GiB on, so that its leaf
    entries straddle two leaf tables; the region holds its first four
    frames, and the walk is paused one entry before the end of the first
    table. *)
Definition mm_straddle : mm_struct := fun _ =>
  flat_tables (fun _ => PudTable) (fun _ => PmdTable)
              (fun i => if (262142 <=? i) && (i <? 262146)
                        then PtePresent (512 + (i - 262142))
                        else PteNone)
              (fun _ => None).

Definition region_straddle : vm_area_struct :=
  region 1073733632 16384 mm_straddle.

Definition walk_before_boundary : pvmw :=
  mk_pvmw thp_page region_straddle 1073737728 0
          (Some 0) (Some 511) (Some 262143) (Some (pte_lockptr 511))
          2 [pte_lockptr 511] 1.

(** The states of the two calls that follow, on the first two entries of
    the second table, and of the call that ends the walk. *)
Definition walk_after_boundary : pvmw :=
  mk_pvmw thp_page region_straddle 1073741824 0
          (Some 1) (Some 512) (Some 262144) (Some (pte_lockptr 512))
          4 [pte_lockptr 512] 1.

Definition walk_after_boundary_next : pvmw :=
  mk_pvmw thp_page region_straddle 1073745920 0
          (Some 1) (Some 512) (Some 262145) (Some (pte_lockptr 512))
          4 [pte_lockptr 512] 1.

Definition walk_straddle_end : pvmw :=
  mk_pvmw thp_page region_straddle 1073750016 0
          (Some 1) (Some 512) None None 4 [] 0.

(** [pud_thp_page] mapped by one collapsed level-3 entry at 1 GiB. *)
Definition mm_pud_huge : mm_struct := fun _ =>
  flat_tables (fun i => if i =? 1 then PudTransHuge 262144 else PudNone)
              (fun _ => PmdNone) (fun _ => PteNone) (fun _ => None).

(** A first call under the MigrationAware flag. *)
Definition walk_pud_migration : pvmw :=
  fresh_walk pud_thp_page (region 1073741824 1073741824 mm_pud_huge)
             1073741824 PVMW_MIGRATION.

(** The same entry, split by another CPU before the walker gets its
    lock. *)
Definition mm_pud_split : mm_struct := fun t =>
  flat_tables (fun i => if i =? 1
                        then match t with
                             | O => PudTransHuge 262144
                             | S _ => PudTable
                             end
                        else PudNone)
              (fun _ => PmdNone) (fun _ => PteNone) (fun _ => None).

Definition walk_pud_split : pvmw :=
  fresh_walk pud_thp_page (region 1073741824 1073741824 mm_pud_split)
             1073741824 0.

(** The first leaf entry at 1 GiB is a migration placeholder for frame 600,
    a frame of [thp_page]. *)
Definition mm_migrating : mm_struct := fun _ =>
  flat_tables (fun _ => PudTable) (fun _ => PmdTable)
              (fun i => if i =? 262144
                        then PteSwap {| swp_type := SwpMigration;
                                        swp_offset := 600 |}
                        else PteNone)
              (fun _ => None).

(** A walk standing on that entry, with flags [fl]. *)
Definition walk_migrating (fl : Z) : pvmw :=
  mk_pvmw thp_page (region 1073741824 2097152 mm_migrating) 1073741824 fl
          (Some 1) (Some 512) (Some 262144) (Some (pte_lockptr 512))
          2 [pte_lockptr 512] 1.

(** [thp_page] mapped by one collapsed level-2 entry at 1 GiB. *)
Definition mm_pmd_huge : mm_struct := fun _ =>
  flat_tables (fun _ => PudTable)
              (fun i => if i =? 512 then PmdTransHuge 512 else PmdNone)
              (fun _ => PteNone) (fun _ => None).

Definition walk_pmd_huge (fl : Z) : pvmw :=
  fresh_walk thp_page (region 1073741824 2097152 mm_pmd_huge) 1073741824 fl.

(** What the first call leaves behind there: the level-2 entry reported and
    locked, the leaf handle NULL. *)
Definition walk_pmd_huge_found (fl : Z) : pvmw :=
  mk_pvmw thp_page (region 1073741824 2097152 mm_pmd_huge) 1073741824 fl
          (Some 1) (Some 512) None (Some (pmd_lockptr 512))
          1 [pmd_lockptr 512] 0.

(** [pud_thp_page] mapped by collapsed level-2 entries, the first two of
    them present. *)
Definition mm_pud_by_pmds : mm_struct := fun _ =>
  flat_tables (fun _ => PudTable)
              (fun i => if i =? 512 then PmdTransHuge 262144
                        else if i =? 513 then PmdTransHuge 262656
                        else PmdNone)
              (fun _ => PteNone) (fun _ => None).

Definition region_pud_by_pmds : vm_area_struct :=
  region 1073741824 1073741824 mm_pud_by_pmds.

Definition walk_pud_by_pmds : pvmw :=
  fresh_walk pud_thp_page region_pud_by_pmds 1073741824 0.

Definition walk_pud_by_pmds_first : pvmw :=
  mk_pvmw pud_thp_page region_pud_by_pmds 1073741824 0
          (Some 1) (Some 512) None (Some (pmd_lockptr 512))
          1 [pmd_lockptr 512] 0.

Definition walk_pud_by_pmds_second : pvmw :=
  mk_pvmw pud_thp_page region_pud_by_pmds 1075838976 0
          (Some 1) (Some 513) None (Some (pmd_lockptr 512))
          1 [pmd_lockptr 512] 0.

(** A first call for a hugetlbfs page that is mapped nowhere. *)
Definition walk_hugetlb_absent : pvmw :=
  fresh_walk hugetlb_page (region 1073741824 2097152 mm_empty) 1073741824 0.

(** A first call without the flag, and the state it leaves behind: the
    level-3 entry reported and locked, the finer handles NULL. *)
Definition walk_pud_huge : pvmw :=
  fresh_walk pud_thp_page (region 1073741824 1073741824 mm_pud_huge)
             1073741824 0.

Definition walk_pud_huge_found : pvmw :=
  mk_pvmw pud_thp_page (region 1073741824 1073741824 mm_pud_huge)
          1073741824 0 (Some 1) None None (Some (pud_lockptr 1))
          1 [pud_lockptr 1] 0.

(** The state in which the call on [walk_pud_migration] returns, and the
    state in which the call on [walk_pud_split] goes on to level 2. *)
Definition walk_pud_migration_end : pvmw :=
  mk_pvmw pud_thp_page (region 1073741824 1073741824 mm_pud_huge)
          1073741824 PVMW_MIGRATION (Some 1) None None None 1 [] 0.

Definition walk_pud_split_unlocked : pvmw :=
  mk_pvmw pud_thp_page (region 1073741824 1073741824 mm_pud_split)
          1073741824 0 (Some 1) None None None 1 [] 0.

(** [hugetlb_page] mapped at 1 GiB through the entry 77 of its own
    table. *)
Definition mm_hugetlb : mm_struct := fun _ =>
  flat_tables (fun _ => PudNone) (fun _ => PmdNone)
              (fun i => if i =? 77 then PtePresent 2048 else PteNone)
              (fun a => if a =? 1073741824 then Some 77 else None).

Definition walk_hugetlb : pvmw :=
  fresh_walk hugetlb_page (region 1073741824 2097152 mm_hugetlb)
             1073741824 0.

Definition walk_hugetlb_found : pvmw :=
  mk_pvmw hugetlb_page (region 1073741824 2097152 mm_hugetlb) 1073741824 0
          None None (Some 77) (Some (huge_pte_lockptr 77))
          1 [huge_pte_lockptr 77] 0.

(** An ordinary page whose file offset puts it 4 MiB into a region. *)
Definition far_page : struct_page := {|
  page_to_pfn := 900; page_index := 1024;
  PageHuge := false; PageTransCompound := false; PageTransHuge := false;
  compound_order := 0; hpage_nr_pages := 1; page_size := 4096
|}.

(** ** Specification vocabulary *)

(** How many frames an entry for the target may point into: a transparent
    compound page can be referenced through any of its subpages, a normal
    page and a hugetlbfs page only through their own frame. *)
Definition target_frames (pg : struct_page) : Z :=
  if negb (PageTransCompound pg) || PageHuge pg then 1
  else hpage_nr_pages pg.

(** The frame [pfn] lies inside the frame range of the target. *)
Definition in_target_frames (pg : struct_page) (pfn : Z) : Prop :=
  page_to_pfn pg <= pfn < page_to_pfn pg + target_frames pg.

(** The address of the walk lies in the region being searched. *)
Definition in_region (s : pvmw) : Prop :=
  vm_start (vma s) <= address s < vm_end (vma s).

(** The target is a PUD-sized transparent huge page, the only kind of target
    that has more than one level-2 entry. *)
Definition pud_sized_thp (cfg : platform) (pg : struct_page) : bool :=
  PageTransHuge pg && (compound_order pg =? HPAGE_PUD_ORDER cfg).

(** No lock is held and no leaf table is mapped. *)
Definition cleaned_up (s : pvmw) : Prop :=
  held s = [] /\ kmapped s = O.

(** The lock ledger agrees with the [ptl] field. *)
Definition ledger_ok (s : pvmw) : Prop :=
  held s = match ptl s with Some l => [l] | None => [] end.

(** At most one leaf table is mapped, and only through the [pte] field. *)
Definition kmap_ok (s : pvmw) : Prop :=
  (kmapped s <= 1)%nat /\ (kmapped s = 1%nat -> pte s <> None).

(** The states in which the caller may call the walker: the zeroed state of
    a first call, and what an earlier call that returned true left behind. *)
Definition walk_ok (s : pvmw) : Prop :=
  ledger_ok s /\ kmap_ok s /\
  (ptl s <> None -> pte s <> None \/ pmd s <> None \/ pud s <> None).

(** What holds of the ledger at each program point. *)
Definition at_label (l : label) (s : pvmw) : Prop :=
  match l with
  | L_entry => walk_ok s
  | L_restart | L_pte_level =>
    ptl s = None /\ held s = [] /\ kmapped s = O
  | L_pmd_check | L_next_pmd | L_pmd_skip =>
    ledger_ok s /\ kmapped s = O
  | L_pte_check | L_next_pte | L_pte_skip =>
    ledger_ok s /\ kmap_ok s
  end.

(** What one block guarantees, given what holds at its program point. *)
Definition block_post (o : outcome) : Prop :=
  match o with
  | Goto l' s' => at_label l' s'
  | Return false s' => cleaned_up s'
  | Return true s' => walk_ok s'
  | Oops => True
  end.

(** The region and the step sizes are such that advancing an address of the
    region does not wrap around. *)
Definition no_wrap (cfg : platform) (v : vm_area_struct) : Prop :=
  0 < PAGE_SIZE cfg /\ 0 < HPAGE_PMD_SIZE cfg /\ 0 <= vm_start v /\
  vm_end v + PAGE_SIZE cfg <= 2 ^ 64 /\
  vm_end v + HPAGE_PMD_SIZE cfg <= 2 ^ 64.

(** Program points in the order in which a call passes them without
    advancing the address. *)
Definition rank (l : label) : nat :=
  match l with
  | L_entry => 8
  | L_restart => 7
  | L_pmd_check => 6
  | L_next_pmd => 5
  | L_pmd_skip => 4
  | L_pte_level => 3
  | L_pte_check => 2
  | L_next_pte => 1
  | L_pte_skip => 0
  end.

(** A bound on the number of blocks still to run: what is left of the
    region, and the blocks that can follow without advancing. *)
Definition measure (l : label) (s : pvmw) : nat :=
  (rank l + 9 * Z.to_nat (vm_end (vma s) - address s))%nat.

(** The walk is paused with its lock recorded, or has not started. *)
Definition locked_or_fresh (s : pvmw) : Prop :=
  ptl s <> None \/ (pte s = None /\ pmd s = None /\ pud s = None).

(** The handles each program point dereferences are set. *)
Definition handles_set (l : label) (s : pvmw) : Prop :=
  match l with
  | L_entry => locked_or_fresh s
  | L_restart => True
  | L_pmd_check => pmd s <> None /\ ptl s <> None
  | L_next_pmd | L_pmd_skip | L_pte_level => pmd s <> None
  | L_pte_check => pte s <> None /\ ptl s <> None
  | L_next_pte | L_pte_skip =>
    pte s <> None /\ (ptl s <> None \/ pmd s <> None)
  end.

(** A block entered with its handles set does not fault, hands on states
    with their handles set, and returns true with the lock recorded. *)
Definition handles_post (o : outcome) : Prop :=
  match o with
  | Goto l' s' => handles_set l' s'
  | Return true s' => locked_or_fresh s'
  | Return false _ => True
  | Oops => False
  end.

(** Two states of one walk at the same address of the same region. *)
Definition same_place (s s' : pvmw) : Prop :=
  vma s' = vma s /\ address s' = address s.

(** Case analysis on the tests that lead a block to the outcome stated by
    [H]. *)
Ltac outcome_cases H :=
  repeat first
    [ discriminate H
    | match type of H with
      | (if ?b then _ else _) = _ => destruct b eqn:?
      | (match ?x with _ => _ end) = _ => destruct x eqn:?
      end ].

(** The configuration reached after [n] jumps, if the walk is still
    running. *)
Fixpoint reach (cfg : platform) (n : nat) (l : label) (s : pvmw)
  : option (label * pvmw) :=
  match n with
  | O => Some (l, s)
  | S k =>
    match step cfg l s with
    | Goto l' s' => reach cfg k l' s'
    | _ => None
    end
  end.

(** The address range of the target inside the region, as the spec words
    it: [frameCount] pages from the expected address on. *)
Definition span_outside_region (cfg : platform) (pg : struct_page)
           (v : vm_area_struct) : Prop :=
  forall a,
    __vma_address cfg pg v <= a
      < __vma_address cfg pg v + hpage_nr_pages pg * PAGE_SIZE cfg ->
    ~ (vm_start v <= a < vm_end v).

(** The walker leaves what it searches for alone: the target page, the
    region and the flags. *)
Definition same_target (s s' : pvmw) : Prop :=
  page s' = page s /\ vma s' = vma s /\ flags s' = flags s.

Definition target_post (s : pvmw) (o : outcome) : Prop :=
  match o with
  | Return _ s' | Goto _ s' => same_target s s'
  | Oops => True
  end.

(** The entry a state reports passes the check of its level on the page
    tables as they are in that state: the leaf entry passes [check_pte], or
    the level-2 entry gets the answer 1 from [check_pmd], or the level-3
    entry is collapsed, maps the target, and the walk is not
    MigrationAware. *)
Definition backed_match (cfg : platform) (s : pvmw) : Prop :=
  check_pte s = Some true \/
  check_pmd cfg s = Some (1, s) \/
  exists pu,
    pud s = Some pu /\
    pud_trans_huge (pud_val (tables s) pu) = true /\
    pud_page (pud_val (tables s) pu) = page_to_pfn (page s) /\
    flag_set (flags s) PVMW_MIGRATION = false.

(** What [check_pte] accepts, as its header comment words it. *)
Definition pte_maps_target (s : pvmw) (e : pte_t) : Prop :=
  if flag_set (flags s) PVMW_MIGRATION then
    exists en, e = PteSwap en /\ is_migration_entry en = true /\
               pfn_is_match (page s) (migration_entry_to_pfn en) = true
  else
    (exists en, e = PteSwap en /\ is_device_private_entry en = true /\
                pfn_is_match (page s) (device_private_entry_to_pfn en) = true)
    \/ (exists pfn, e = PtePresent pfn /\ pfn_is_match (page s) pfn = true).

(** The state in which the walker reports the leaf entry for the address it
    was called with, from a first-call state [s]: level-3, level-2 and leaf
    handles set, the level-2 lock taken and given back, the leaf table
    mapped and locked. *)
Definition pte_match_state (s : pvmw) (pu pm pt : ptr) : pvmw :=
  spin_lock (pte_lockptr pm)
    (set_ptl (Some (pte_lockptr pm))
       (kmap (set_pte (Some pt)
          (set_ptl None
             (spin_unlock (pmd_lockptr pm)
                (pmd_lock pm (set_pmd (Some pm) (set_pud (Some pu) s)))))))).

(** An ordinary page mapped by one leaf entry 4 MiB into an 8 MiB region at
    1 GiB. *)
Definition mm_far : mm_struct := fun _ =>
  flat_tables (fun _ => PudTable) (fun _ => PmdTable)
              (fun i => if i =? 263168 then PtePresent 900 else PteNone)
              (fun _ => None).

Definition region_far : vm_area_struct := region 1073741824 8388608 mm_far.

Definition walk_far : pvmw := fresh_walk far_page region_far 1077936128 0.

Definition walk_far_found : pvmw :=
  mk_pvmw far_page region_far 1077936128 0
          (Some 1) (Some 514) (Some 263168) (Some (pte_lockptr 514))
          2 [pte_lockptr 514] 1.

(** The state [page_mapped_in_vma] returns for that page: the match found
    under the Sync flag and released again. *)
Definition walk_far_checked : pvmw :=
  mk_pvmw far_page region_far 1077936128 PVMW_SYNC
          (Some 1) (Some 514) None None 2 [] 0.

(** A first call for the same page in an address space that maps another
    page: the leaf entry of its address is empty. *)
Definition walk_far_unmapped : pvmw :=
  fresh_walk far_page (region 1073741824 8388608 mm_full_table)
             1077936128 0.

(** A walk about to map an empty leaf table, and one about to resolve an
    empty level-2 entry, with no flag set. *)
Definition walk_at_empty_pte : pvmw :=
  mk_pvmw thp_page (region 1073741824 2097152 mm_empty) 1073741824 0
          (Some 1) (Some 512) None None 1 [] 0.

Definition walk_at_empty_pmd : pvmw :=
  mk_pvmw thp_page (region 1073741824 2097152 mm_empty) 1073741824 0
          (Some 1) None None None 0 [] 0.

(** A walk holding the level-2 lock over an entry that points to a leaf
    table. *)
Definition walk_at_table_pmd : pvmw :=
  mk_pvmw thp_page region_full_table 1073741824 0
          (Some 1) (Some 512) None (Some (pmd_lockptr 512))
          1 [pmd_lockptr 512] 0.

(** *** A 1 GiB page mapped partly by leaf entries

    [pud_thp_page] is expected from 1 GiB on.  The region begins one page
    before the end of the page's first 2 MiB, which is what unmapping the
    range below leaves behind; that last page is mapped by the leaf table of
    level-2 entry 512, the following 2 MiB by the collapsed level-2 entry
    513. *)
Definition mm_pud_mixed : mm_struct := fun _ =>
  flat_tables (fun _ => PudTable)
              (fun i => if i =? 512 then PmdTable
                        else if i =? 513 then PmdTransHuge 262656
                        else PmdNone)
              (fun i => if (262144 <=? i) && (i <? 262656)
                        then PtePresent i else PteNone)
              (fun _ => None).

Definition region_pud_mixed : vm_area_struct := {|
  vm_start := 1075834880; vm_end := 1080033280; vm_pgoff := 511;
  vm_mm := mm_pud_mixed
|}.

(** The first call there, at the expected address clipped up to the start
    of the region, and the state it returns: the last leaf entry of the
    table reported. *)
Definition walk_pud_mixed : pvmw :=
  fresh_walk pud_thp_page region_pud_mixed 1075834880 0.

Definition walk_pud_mixed_leaf : pvmw :=
  mk_pvmw pud_thp_page region_pud_mixed 1075834880 0
          (Some 1) (Some 512) (Some 262655) (Some (pte_lockptr 512))
          2 [pte_lockptr 512] 1.

(** The second call at the moment it jumps to [restart], the state it
    returns, and the third call inside the leaf skip loop. *)
Definition walk_pud_mixed_restart : pvmw :=
  mk_pvmw pud_thp_page region_pud_mixed 1075838976 0
          (Some 1) (Some 512) (Some 262655) None 2 [] 0.

Definition walk_pud_mixed_pmd : pvmw :=
  mk_pvmw pud_thp_page region_pud_mixed 1075838976 0
          (Some 1) (Some 513) (Some 262655) (Some (pmd_lockptr 513))
          3 [pmd_lockptr 513] 0.

Definition walk_pud_mixed_stale : pvmw :=
  mk_pvmw pud_thp_page region_pud_mixed 1075843072 0
          (Some 1) (Some 513) (Some 262656) (Some (pmd_lockptr 513))
          3 [pmd_lockptr 513] 0.

(** The same level-2 match as a first call at its address reports it, with
    the leaf handle NULL, and the call after it inside the level-2 skip
    loop. *)
Definition walk_pud_mixed_pmd_fresh : pvmw :=
  mk_pvmw pud_thp_page region_pud_mixed 1075838976 0
          (Some 1) (Some 513) None (Some (pmd_lockptr 513))
          1 [pmd_lockptr 513] 0.

(** *** A page whose expected address lies below zero

    The region begins at 64 KiB and maps the file from 1 MiB on, so that
    [thp_page], at file offset 0, is expected 1 MiB below the start of the
    region, at minus 960 KiB; the second half of the page, frames 768 to
    1023, is mapped by the first 256 leaf entries of the region. *)
Definition mm_low : mm_struct := fun _ =>
  flat_tables (fun _ => PudTable) (fun _ => PmdTable)
              (fun i => if (16 <=? i) && (i <? 272)
                        then PtePresent (768 + (i - 16)) else PteNone)
              (fun _ => None).

Definition region_low : vm_area_struct := {|
  vm_start := 65536; vm_end := 2162688; vm_pgoff := 256; vm_mm := mm_low
|}.

(** The walk from the start of the region, as the containment check sets it
    up, and the state in which it returns. *)
Definition walk_low : pvmw := fresh_walk thp_page region_low 65536 PVMW_SYNC.

Definition walk_low_found : pvmw :=
  mk_pvmw thp_page region_low 65536 PVMW_SYNC
          (Some 0) (Some 0) (Some 16) (Some (pte_lockptr 0))
          2 [pte_lockptr 0] 1.

(** *** Walks that leave the region

    The ordinary page of [mm_far] in a region that ends where the page is
    mapped, entered at that address. *)
Definition region_far_short : vm_area_struct :=
  region 1073741824 4194304 mm_far.

Definition walk_at_region_end : pvmw :=
  fresh_walk far_page region_far_short 1077936128 0.

Definition walk_at_region_end_found : pvmw :=
  mk_pvmw far_page region_far_short 1077936128 0
          (Some 1) (Some 514) (Some 263168) (Some (pte_lockptr 514))
          2 [pte_lockptr 514] 1.

(** [pud_thp_page] in a region that takes up the last 2 MiB of the address
    space but for its last page, mapped by a collapsed level-2 entry there
    and by another at address 0. *)
Definition mm_top : mm_struct := fun _ =>
  flat_tables (fun _ => PudTable)
              (fun i => if i =? 8796093022207 then PmdTransHuge 262144
                        else if i =? 0 then PmdTransHuge 262656
                        else PmdNone)
              (fun _ => PteNone) (fun _ => None).

Definition region_top : vm_area_struct :=
  region 18446744073707454464 2093056 mm_top.

Definition walk_top : pvmw :=
  fresh_walk pud_thp_page region_top 18446744073707454464 0.

Definition walk_top_first : pvmw :=
  mk_pvmw pud_thp_page region_top 18446744073707454464 0
          (Some 17179869183) (Some 8796093022207) None
          (Some (pmd_lockptr 8796093022207))
          1 [pmd_lockptr 8796093022207] 0.

Definition walk_top_wrapped : pvmw :=
  mk_pvmw pud_thp_page region_top 0 0
          (Some 0) (Some 0) None (Some (pmd_lockptr 0))
          2 [pmd_lockptr 0] 0.

(** ** The kernel virtual address layout of arch/arc/include/asm/highmem.h

    ARC is a 32-bit machine: [unsigned long] wraps modulo 2^32.  The page
    offset, the size a top-level entry maps, the page shift and the number
    of CPUs come from headers outside the sources and are parameters. *)
Definition ulong32 (z : Z) : Z := z mod 2 ^ 32.

Record arc_config := {
  PAGE_OFFSET : Z;
  PGDIR_SIZE : Z;
  PAGE_SHIFT : Z;
  NR_CPUS : Z
}.

Definition FIXMAP_SIZE (c : arc_config) : Z := PGDIR_SIZE c.
Definition PKMAP_SIZE (c : arc_config) : Z := PGDIR_SIZE c.
Definition FIXMAP_BASE (c : arc_config) : Z :=
  ulong32 (ulong32 (PAGE_OFFSET c - FIXMAP_SIZE c) - PKMAP_SIZE c).
Definition KM_TYPE_NR (c : arc_config) : Z :=
  Z.shiftr (FIXMAP_SIZE c) (PAGE_SHIFT c) / NR_CPUS c.
Definition FIXMAP_ADDR (c : arc_config) (nr : Z) : Z :=
  ulong32 (FIXMAP_BASE c + ulong32 (Z.shiftl nr (PAGE_SHIFT c))).
Definition PKMAP_BASE (c : arc_config) : Z :=
  ulong32 (FIXMAP_BASE c + FIXMAP_SIZE c).
Definition LAST_PKMAP (c : arc_config) : Z :=
  Z.shiftr (PKMAP_SIZE c) (PAGE_SHIFT c).
Definition LAST_PKMAP_MASK (c : arc_config) : Z := ulong32 (LAST_PKMAP c - 1).
Definition PKMAP_ADDR (c : arc_config) (nr : Z) : Z :=
  ulong32 (PKMAP_BASE c + ulong32 (Z.shiftl nr (PAGE_SHIFT c))).
Definition PKMAP_NR (c : arc_config) (virt : Z) : Z :=
  Z.shiftr (ulong32 (virt - PKMAP_BASE c)) (PAGE_SHIFT c).

(** The layout is sound when the two areas fit below the page offset and
    hold whole pages. *)
Definition arc_layout_ok (c : arc_config) : Prop :=
  0 <= PAGE_SHIFT c /\ 2 ^ PAGE_SHIFT c <= PGDIR_SIZE c /\
  2 * PGDIR_SIZE c <= PAGE_OFFSET c /\ PAGE_OFFSET c < 2 ^ 32.

(** 8 KiB pages, 2 MiB per top-level entry, kernel at 2 GiB. *)
Definition arc_default : arc_config := {|
  PAGE_OFFSET := 2147483648;
  PGDIR_SIZE := 2097152;
  PAGE_SHIFT := 13;
  NR_CPUS := 4
|}.

(** ** Basic facts *)

Lemma spinlock_eqb_refl (l : spinlock) : spinlock_eqb l l = true.
Proof. destruct l; simpl; apply Z.eqb_refl. Qed.

Lemma release_head (l : spinlock) (ls : list spinlock) :
  release l (l :: ls) = ls.
Proof. simpl. now rewrite spinlock_eqb_refl. Qed.

Lemma ulong_small (z : Z) : 0 <= z < 2 ^ 64 -> ulong z = z.
Proof. intros H. unfold ulong. now apply Z.mod_small. Qed.

Section Properties.

Variable cfg : platform.

(** *** The frame test *)

Lemma pfn_is_match_spec (pg : struct_page) (pfn : Z) :
  0 <= hpage_nr_pages pg < 2 ^ 64 ->
  pfn - page_to_pfn pg < 2 ^ 64 ->
  (pfn_is_match pg pfn = true <-> in_target_frames pg pfn).
Proof.
  intros Hnr Hd. unfold pfn_is_match, in_target_frames, target_frames.
  destruct (negb (PageTransCompound pg) || PageHuge pg).
  - rewrite Z.eqb_eq. lia.
  - rewrite andb_true_iff, Z.geb_le, Z.ltb_lt.
    rewrite (ulong_small (hpage_nr_pages pg)) by lia.
    split.
    + intros [H1 H2]. rewrite ulong_small in H2 by lia. lia.
    + intros H. rewrite ulong_small by lia. lia.
Qed.

(** C4. A leaf entry that is a swap-encoded migration placeholder for a
    frame of the target is accepted by [check_pte] exactly when the
    MigrationAware flag is set: with the flag the answer is true and the
    walker returns true at the leaf level, without it the answer is false
    and the walker moves on to the next leaf entry. *)
Theorem check_pte_migration_placeholder (s : pvmw) (p : ptr)
        (e : swp_entry_t) :
  pte s = Some p ->
  pte_val (tables s) p = PteSwap e ->
  is_migration_entry e = true ->
  in_target_frames (page s) (migration_entry_to_pfn e) ->
  0 <= hpage_nr_pages (page s) < 2 ^ 64 ->
  check_pte s = Some (flag_set (flags s) PVMW_MIGRATION) /\
  step cfg L_pte_check s =
    if flag_set (flags s) PVMW_MIGRATION then Return true s
    else Goto L_next_pte s.
Proof.
  intros Hp He Hm Hin Hnr.
  assert (Hc : check_pte s = Some (flag_set (flags s) PVMW_MIGRATION)).
  { unfold check_pte. rewrite Hp, He. simpl.
    destruct (flag_set (flags s) PVMW_MIGRATION).
    - rewrite Hm. simpl. f_equal.
      apply pfn_is_match_spec; trivial.
      unfold in_target_frames, target_frames in Hin.
      destruct (negb (PageTransCompound (page s)) || PageHuge (page s)); lia.
    - unfold is_migration_entry in Hm. unfold is_device_private_entry.
      destruct (swp_type e); simpl; congruence. }
  split; [exact Hc|].
  simpl. rewrite Hc. now destruct (flag_set (flags s) PVMW_MIGRATION).
Qed.

(** C10. Under the MigrationAware flag a present collapsed huge entry at
    level 2 is never a match: [check_pmd] answers 0 for it; and whenever
    [check_pmd] answers 1 under that flag, the entry is a swap-encoded
    migration placeholder and the platform supports such placeholders. *)
Theorem check_pmd_migration_aware (s : pvmw) (p : ptr) :
  pmd s = Some p ->
  flag_set (flags s) PVMW_MIGRATION = true ->
  (pmd_trans_huge (pmd_val (tables s) p) = true ->
   check_pmd cfg s = Some (0, s)) /\
  (forall s', check_pmd cfg s = Some (1, s') ->
     thp_migration_supported cfg = true /\
     exists e, pmd_val (tables s) p = PmdSwap e /\
               is_migration_entry e = true /\
               pfn_is_match (page s) (migration_entry_to_pfn e) = true).
Proof.
  intros Hp Hf. unfold check_pmd. rewrite Hp, Hf. split.
  - intros ->. reflexivity.
  - intros s'. destruct (pmd_val (tables s) p) as [| |pfn|e]; simpl.
    + destruct (thp_migration_supported cfg); discriminate.
    + destruct (ptl s); discriminate.
    + discriminate.
    + destruct (thp_migration_supported cfg); [|discriminate].
      destruct (is_migration_entry e) eqn:Hm; [|discriminate].
      destruct (pfn_is_match (page s) (migration_entry_to_pfn e)) eqn:Hpm;
        simpl; [|discriminate].
      intros _. split; [reflexivity|]. exists e. auto.
Qed.

(** *** Field bookkeeping *)

Lemma drop_ptl_fields (s : pvmw) :
  ptl (drop_ptl s) = None /\
  held (drop_ptl s)
    = match ptl s with Some l => release l (held s) | None => held s end /\
  kmapped (drop_ptl s) = kmapped s /\
  address (drop_ptl s) = address s /\
  pte (drop_ptl s) = pte s /\ pmd (drop_ptl s) = pmd s /\
  pud (drop_ptl s) = pud s /\ now (drop_ptl s) = now s.
Proof. unfold drop_ptl. destruct (ptl s) eqn:E; simpl; auto 10. Qed.

Lemma exhausted_spec (s : pvmw) :
  exhausted cfg s = true <->
  vm_end (vma s) <= address s \/ page_span_end cfg s <= address s.
Proof.
  unfold exhausted. rewrite orb_true_iff, !Z.geb_le. reflexivity.
Qed.

Lemma run_S (n : nat) (l : label) (s : pvmw) :
  run cfg (S n) l s =
  match step cfg l s with
  | Return b s' => Done b s'
  | Oops => Fault
  | Goto l' s' => run cfg n l' s'
  end.
Proof. reflexivity. Qed.

(** C7. For a hugetlbfs target whose dedicated lookup finds no entry, the
    first call returns false by the plain return: the state is handed back
    as it was, no lock is taken and the clean-up path is not run, which
    shows whenever a lock is recorded in the state. *)
Theorem hugetlb_missing_entry_plain_return (s : pvmw) :
  pte s = None -> pmd s = None -> pud s = None ->
  PageHuge (page s) = true ->
  huge_pte_offset (tables s) (address s) (page_size (page s)) = None ->
  step cfg L_entry s = Return false s /\
  (forall fuel, page_vma_mapped_walk cfg (S fuel) s = Done false s) /\
  (ptl s <> None -> not_found s <> Return false s).
Proof.
  intros Hpte Hpmd Hpud Hhuge Hoff.
  assert (Hs : step cfg L_entry s = Return false s).
  { simpl. rewrite Hpte, Hpmd, Hpud, Hhuge, Hoff. simpl.
    destruct s; simpl in *; subst; reflexivity. }
  split; [exact Hs|]. split.
  - intros fuel. unfold page_vma_mapped_walk. now rewrite run_S, Hs.
  - intros Hl Heq. unfold not_found in Heq.
    assert (H : ptl (page_vma_mapped_walk_done s) = ptl s) by congruence.
    unfold page_vma_mapped_walk_done in H. rewrite Hpte in H.
    destruct (drop_ptl_fields s) as [H0 _]. congruence.
Qed.

(** C2 (as the code has it). While skipping leaf entries the walker reports
    exhaustion exactly when the advanced address has left the region or has
    left the address range of the target, whichever happens first; it then
    returns through the clean-up path. *)
Theorem pte_skip_exhaustion (s s' : pvmw) :
  let s1 := set_address (ulong (address s + PAGE_SIZE cfg)) s in
  step cfg L_pte_skip s = Return false s' <->
  (vm_end (vma s) <= address s1 \/ page_span_end cfg s1 <= address s1) /\
  s' = page_vma_mapped_walk_done s1.
Proof.
  intros s1. pose proof (exhausted_spec s1) as He. simpl.
  fold s1. change (vma s1) with (vma s) in He.
  destruct (exhausted cfg s1) eqn:Hex.
  - unfold not_found. split.
    + intros H. split; [now apply He|congruence].
    + intros [_ ->]. reflexivity.
  - split.
    + intros H. exfalso. outcome_cases H.
    + intros [H _]. apply He in H. discriminate.
Qed.

(** *** The resource ledger along a call *)

Lemma done_cleans (s : pvmw) :
  ledger_ok s -> kmap_ok s -> cleaned_up (page_vma_mapped_walk_done s).
Proof.
  unfold ledger_ok, kmap_ok, cleaned_up, page_vma_mapped_walk_done, drop_ptl.
  destruct s as [pg v a f pu pm pt l n h k]; simpl.
  intros -> [Hk Hp].
  destruct pt, l; simpl; rewrite ?spinlock_eqb_refl; split; trivial;
    try lia; destruct k as [|[|k]]; simpl; trivial; try lia;
    exfalso; now apply Hp.
Qed.

Lemma done_cleans_unmapped (s : pvmw) :
  ledger_ok s -> kmapped s = O -> cleaned_up (page_vma_mapped_walk_done s).
Proof.
  intros Hl Hk. apply done_cleans; trivial.
  unfold kmap_ok. rewrite Hk. split; [lia|discriminate].
Qed.

(** The three answers of [check_pmd]: only the last one changes the state,
    by giving the lock back. *)
Lemma check_pmd_cases (s : pvmw) :
  match check_pmd cfg s with
  | None => True
  | Some (r, s') =>
    pmd s <> None /\
    ((r = 0 /\ s' = s) \/ (r = 1 /\ s' = s) \/
     (r = 2 /\ exists l, ptl s = Some l /\
                         s' = set_ptl None (spin_unlock l s)))
  end.
Proof.
  unfold check_pmd. destruct (pmd s) as [pm|]; [|exact I].
  repeat match goal with
         | |- context [if ?b then _ else _] => destruct b
         end; try (split; [discriminate|auto]).
  destruct (ptl s) as [l|]; [|exact I].
  split; [discriminate|]. right. right. split; trivial. now exists l.
Qed.

Lemma map_pmd_post (s : pvmw) :
  ptl s = None -> held s = [] -> kmapped s = O ->
  block_post (resolve_pmd cfg s).
Proof.
  unfold resolve_pmd, map_pmd. intros Hl Hh Hk.
  destruct (pud s) as [pu|]; simpl; trivial.
  repeat match goal with
         | |- context [if ?b then _ else _] => destruct b
         end; simpl; unfold ledger_ok; simpl; rewrite ?Hl, ?Hh; auto.
Qed.

Lemma step_post (l : label) (s : pvmw) :
  at_label l s -> block_post (step cfg l s).
Proof.
  destruct l; intros H.
  - (* entry *)
    destruct H as (Hl & Hk & Hh).
    cbv beta iota zeta delta [step].
    destruct (pte s) as [pt|] eqn:Ept; simpl is_null; simpl andb.
    + destruct (is_null (pmd s)); simpl; auto.
    + destruct (pmd s) as [pm|] eqn:Epm; simpl is_null; simpl andb.
      * simpl. split; trivial. destruct Hk as [Hk1 Hk2].
        destruct (kmapped s) as [|[|k]]; trivial; [|lia].
        exfalso. now apply Hk2.
      * assert (Hk0 : kmapped s = O).
        { destruct Hk as [Hk1 Hk2].
          destruct (kmapped s) as [|[|k]]; trivial; [|lia].
          exfalso. now apply Hk2. }
        destruct (pud s) as [pu|] eqn:Epu; simpl is_null; simpl negb.
        -- simpl. now apply done_cleans.
        -- assert (Hp : ptl s = None).
           { destruct (ptl s); trivial.
             destruct Hh as [Hh|[Hh|Hh]]; congruence. }
           assert (Hh0 : held s = []).
           { unfold ledger_ok in Hl. now rewrite Hp in Hl. }
           destruct (PageHuge (page s)); [|simpl; auto].
           destruct (huge_pte_offset _ _ _) as [p|]; [|simpl; split; auto].
           destruct (check_pte _) as [[|]|]; simpl; trivial.
           ++ unfold walk_ok, ledger_ok, kmap_ok. simpl. rewrite Hh0, Hk0.
              repeat split; auto; try lia; try discriminate.
              intros _. left. discriminate.
           ++ apply done_cleans_unmapped; trivial.
              unfold ledger_ok. simpl. now rewrite Hh0.
  - (* restart *)
    destruct H as (Hl & Hh & Hk).
    cbv beta iota zeta delta [step].
    destruct (negb (pgd_present _)); [simpl; split; trivial|].
    destruct (negb (p4d_present _)); [simpl; split; trivial|].
    match goal with
    | |- context [pud_offset ?t ?p ?a] => set (pu := pud_offset t p a)
    end.
    destruct (pud_trans_huge (pud_val (tables (set_pud _ s)) pu)).
    + destruct (pud_trans_huge (pud_val (tables (pud_lock _ _)) pu)).
      * assert (Hok : ledger_ok (pud_lock pu (set_pud (Some pu) s))).
        { unfold ledger_ok. simpl. now rewrite Hh. }
        destruct (flag_set _ _);
          [simpl; now apply done_cleans_unmapped|].
        destruct (negb _); [simpl; now apply done_cleans_unmapped|].
        simpl. unfold walk_ok, kmap_ok. simpl. rewrite Hk.
        repeat split; auto; try lia; try discriminate.
        intros _. right. right. discriminate.
      * apply map_pmd_post; simpl; rewrite ?Z.eqb_refl; trivial.
    + destruct (negb (pud_present _)); [simpl; split; trivial|].
      now apply map_pmd_post.
  - (* pmd_check *)
    destruct H as (Hl & Hk).
    cbv beta iota zeta delta [step].
    pose proof (check_pmd_cases s) as Hc.
    destruct (check_pmd cfg s) as [[r s']|]; [|exact I].
    destruct Hc as [Hpm [(-> & ->)|[(-> & ->)|(-> & lk & El & ->)]]];
      simpl; auto.
    + unfold walk_ok, kmap_ok. rewrite Hk.
      repeat split; auto; try lia; try discriminate.
    + unfold ledger_ok in Hl. rewrite El in Hl. rewrite Hl.
      rewrite release_head. auto.
  - (* next_pmd *)
    destruct H as (Hl & Hk).
    cbv beta iota zeta delta [step].
    destruct (negb _); simpl; auto. now apply done_cleans_unmapped.
  - (* pmd_skip *)
    destruct H as (Hl & Hk).
    cbv beta iota zeta delta [step].
    set (s1 := set_address _ s).
    assert (Hl1 : ledger_ok s1) by exact Hl.
    destruct (exhausted cfg s1);
      [simpl; now apply done_cleans_unmapped|].
    destruct (_ =? 0).
    + simpl. destruct (drop_ptl_fields s1) as (H1 & H2 & H3 & _).
      rewrite H1, H2, H3. split; trivial. split; trivial.
      unfold ledger_ok in Hl1. rewrite Hl1.
      destruct (ptl s1); simpl; trivial. now rewrite spinlock_eqb_refl.
    + destruct (pmd s1) as [pm|]; simpl; trivial.
      destruct (pmd_none _); [simpl; auto|].
      destruct (ptl s) as [lk|] eqn:El; simpl; (split; [|trivial]);
        unfold ledger_ok in *; simpl in *; rewrite El in *;
        [assumption|rewrite Hl; reflexivity].
  - (* pte_level *)
    destruct H as (Hl & Hh & Hk).
    cbv beta iota zeta delta [step map_pte].
    destruct (pmd s) as [pm|]; simpl; trivial.
    match goal with
    | |- context [if ?b then Some (false, ?x) else _] => destruct b
    end; simpl; unfold ledger_ok, kmap_ok; simpl; rewrite ?Hl, Hh, Hk;
      repeat split; auto; discriminate.
  - (* pte_check *)
    destruct H as (Hl & Hk).
    cbv beta iota zeta delta [step].
    destruct (check_pte s) as [[|]|] eqn:Ec; simpl; auto.
    unfold walk_ok. repeat split; try apply Hk; trivial.
    intros _. left. unfold check_pte in Ec.
    destruct (pte s); discriminate.
  - (* next_pte *)
    destruct H as (Hl & Hk).
    cbv beta iota zeta delta [step].
    destruct (_ || _); simpl; auto. now apply done_cleans.
  - (* pte_skip *)
    destruct H as (Hl & Hk).
    cbv beta iota zeta delta [step].
    set (s1 := set_address _ s).
    assert (Hl1 : ledger_ok s1) by exact Hl.
    assert (Hk1 : kmap_ok s1) by exact Hk.
    destruct (exhausted cfg s1); [simpl; now apply done_cleans|].
    destruct (_ =? 0).
    + simpl. destruct (drop_ptl_fields (pte_unmap s1)) as (H1 & H2 & H3 & _).
      rewrite H1, H2, H3. split; trivial. split.
      * unfold ledger_ok in Hl1. simpl in *. rewrite Hl.
        destruct (ptl s); simpl; trivial. now rewrite spinlock_eqb_refl.
      * simpl. destruct Hk as [Hk _]. lia.
    + destruct (pte s1) as [pt|]; simpl; trivial.
      assert (Hk2 : forall x, kmap_ok (set_pte (Some (pt + 1)) x) <->
                              (kmapped x <= 1)%nat).
      { intros x. unfold kmap_ok. simpl. intuition discriminate. }
      destruct (pte_none _); [simpl; split; trivial; apply Hk2, Hk|].
      destruct (ptl s) as [lk|] eqn:El; simpl.
      * split; [|apply Hk2, Hk].
        unfold ledger_ok in *. simpl in *. now rewrite El in *.
      * destruct (pmd s) as [pm|]; simpl; trivial.
        unfold ledger_ok, kmap_ok in *. simpl in *. rewrite El in Hl.
        rewrite Hl. repeat split; auto; try apply Hk. discriminate.
Qed.

Lemma run_post (fuel : nat) :
  forall l s, at_label l s ->
  match run cfg fuel l s with
  | Done false s' => cleaned_up s'
  | Done true s' => walk_ok s'
  | _ => True
  end.
Proof.
  induction fuel as [|n IH]; intros l s H; [exact I|].
  rewrite run_S. pose proof (step_post l s H) as Hp.
  destruct (step cfg l s) as [[|] s'|l' s'|]; simpl in Hp; trivial.
  now apply IH.
Qed.

(** A first-call state, with its handles NULL and nothing held, is one the
    walker may be called in, and so is the state a call that returned true
    leaves behind. *)
Lemma walk_ok_fresh (pg : struct_page) (v : vm_area_struct) (a f : Z) :
  walk_ok (fresh_walk pg v a f).
Proof.
  unfold walk_ok, ledger_ok, kmap_ok. simpl.
  repeat split; auto; try lia; try discriminate.
Qed.

Lemma walk_ok_preserved (fuel : nat) (s s' : pvmw) :
  walk_ok s -> page_vma_mapped_walk cfg fuel s = Done true s' -> walk_ok s'.
Proof.
  intros H E. pose proof (run_post fuel L_entry s H) as P.
  unfold page_vma_mapped_walk in E. now rewrite E in P.
Qed.

(** C1. Whenever a call returns false, whichever exit it takes (the
    clean-up path or a plain return when a directory level is absent), no
    lock is held any more and no leaf table is mapped. *)
Theorem walk_false_is_cleaned_up (fuel : nat) (s s' : pvmw) :
  walk_ok s ->
  page_vma_mapped_walk cfg fuel s = Done false s' ->
  cleaned_up s'.
Proof.
  intros H E. pose proof (run_post fuel L_entry s H) as P.
  unfold page_vma_mapped_walk in E. now rewrite E in P.
Qed.

(** *** Collapsed entries at level 3 *)

Lemma resolve_pmd_jumps (s : pvmw) :
  pud s <> None ->
  exists l s', resolve_pmd cfg s = Goto l s' /\
               (l = L_pmd_check \/ l = L_next_pmd).
Proof.
  unfold resolve_pmd, map_pmd. destruct (pud s) as [pu|]; [|congruence].
  intros _.
  repeat match goal with
         | |- context [if ?b then _ else _] => destruct b
         end; eauto.
Qed.

(** C3 (as the code has it). When the level-3 entry is seen collapsed and
    is still collapsed once its lock is held, a failed match (the
    MigrationAware flag is set, or the entry maps another page) ends the
    call: it returns false through the clean-up path, which gives the lock
    back.  Only when the entry was split in the meantime does the walker
    give the lock back and go on to resolve level 2. *)
Theorem pud_huge_no_match_ends_walk (s : pvmw) :
  let pgd := pgd_offset (tables s) (address s) in
  let p4d := p4d_offset (tables s) pgd (address s) in
  let pu := pud_offset (tables s) p4d (address s) in
  let s1 := pud_lock pu (set_pud (Some pu) s) in
  let s2 := set_ptl None (spin_unlock (pud_lockptr pu) s1) in
  pgd_present (pgd_val (tables s) pgd) = true ->
  p4d_present (p4d_val (tables s) p4d) = true ->
  pud_trans_huge (pud_val (tables s) pu) = true ->
  (pud_trans_huge (pud_val (tables s1) pu) = true ->
   flag_set (flags s) PVMW_MIGRATION = true \/
   pud_page (pud_val (tables s1) pu) <> page_to_pfn (page s) ->
   step cfg L_restart s = Return false (page_vma_mapped_walk_done s1) /\
   ptl (page_vma_mapped_walk_done s1) = None /\
   held (page_vma_mapped_walk_done s1) = held s) /\
  (pud_trans_huge (pud_val (tables s1) pu) = false ->
   step cfg L_restart s = resolve_pmd cfg s2 /\
   ptl s2 = None /\ held s2 = held s /\
   exists l s', resolve_pmd cfg s2 = Goto l s' /\
                (l = L_pmd_check \/ l = L_next_pmd)).
Proof.
  intros pgd p4d pu s1 s2 Hpgd Hp4d Hhuge.
  assert (Hstep : step cfg L_restart s =
                  if pud_trans_huge (pud_val (tables s1) pu) then
                    if flag_set (flags s) PVMW_MIGRATION then not_found s1
                    else if negb (pud_page (pud_val (tables s1) pu)
                                  =? page_to_pfn (page s))
                         then not_found s1
                         else Return true s1
                  else resolve_pmd cfg s2).
  { cbv beta iota zeta delta [step].
    fold pgd. rewrite Hpgd. simpl negb. cbv iota.
    fold p4d. rewrite Hp4d. simpl negb. cbv iota.
    fold pu. change (tables (set_pud (Some pu) s)) with (tables s).
    rewrite Hhuge. reflexivity. }
  split.
  - intros Hre Hno. rewrite Hstep, Hre.
    assert (Hnf : (if flag_set (flags s) PVMW_MIGRATION then not_found s1
                   else if negb (pud_page (pud_val (tables s1) pu)
                                 =? page_to_pfn (page s))
                        then not_found s1 else Return true s1)
                  = not_found s1).
    { destruct (flag_set (flags s) PVMW_MIGRATION); [reflexivity|].
      destruct Hno as [Hno|Hno]; [discriminate|].
      apply Z.eqb_neq in Hno. now rewrite Hno. }
    rewrite Hnf. split; [reflexivity|].
    unfold page_vma_mapped_walk_done.
    destruct (pte s1) eqn:Ept.
    + destruct (drop_ptl_fields (set_pte None (pte_unmap s1)))
        as (H1 & H2 & _).
      rewrite H1, H2. split; [reflexivity|].
      simpl. now rewrite Z.eqb_refl.
    + destruct (drop_ptl_fields s1) as (H1 & H2 & _).
      rewrite H1, H2. split; [reflexivity|].
      simpl. now rewrite Z.eqb_refl.
  - intros Hre. rewrite Hstep, Hre. split; [reflexivity|].
    split; [reflexivity|]. split.
    + simpl. now rewrite Z.eqb_refl.
    + apply resolve_pmd_jumps. discriminate.
Qed.

(** *** The call after a match *)

(** A call that returns true leaves at least one handle set. *)
Lemma step_true_handle (l : label) (s s' : pvmw) :
  step cfg l s = Return true s' ->
  pte s' <> None \/ pmd s' <> None \/ pud s' <> None.
Proof.
  intros H. destruct l;
    cbv beta iota zeta delta [step not_found resolve_pmd] in H.
  - outcome_cases H. inversion H; subst. left. discriminate.
  - outcome_cases H. inversion H; subst. right. right. discriminate.
  - pose proof (check_pmd_cases s) as Hc.
    destruct (check_pmd cfg s) as [[r t]|]; [|discriminate].
    destruct Hc as [Hpm [(-> & ->)|[(-> & ->)|(-> & lk & El & ->)]]];
      simpl in H; try discriminate.
    inversion H; subst. auto.
  - outcome_cases H.
  - outcome_cases H.
  - outcome_cases H.
  - destruct (check_pte s) as [[|]|] eqn:Ec; try discriminate.
    inversion H; subst. left. unfold check_pte in Ec.
    destruct (pte s'); discriminate.
  - outcome_cases H.
  - outcome_cases H.
Qed.

Lemma run_true_handle (fuel : nat) :
  forall l s s', run cfg fuel l s = Done true s' ->
  pte s' <> None \/ pmd s' <> None \/ pud s' <> None.
Proof.
  induction fuel as [|n IH]; intros l s s' H; [discriminate|].
  rewrite run_S in H.
  destruct (step cfg l s) as [b t|l' t|] eqn:E; try discriminate.
  - inversion H; subst. eapply step_true_handle; eauto.
  - eapply IH; eauto.
Qed.

(** How the entry of the function resumes a walk, by the handles the
    previous call left. *)
Lemma entry_resume_pte (s : pvmw) :
  pte s <> None -> step cfg L_entry s = Goto L_next_pte s.
Proof.
  intros H. cbv beta iota zeta delta [step].
  destruct (pte s); [|congruence]. simpl. now destruct (pmd s).
Qed.

Lemma entry_resume_pmd (s : pvmw) :
  pte s = None -> pmd s <> None -> step cfg L_entry s = Goto L_next_pmd s.
Proof.
  intros H1 H2. cbv beta iota zeta delta [step]. rewrite H1.
  destruct (pmd s); [|congruence]. reflexivity.
Qed.

Lemma entry_resume_pud (s : pvmw) :
  pte s = None -> pmd s = None -> pud s <> None ->
  step cfg L_entry s = not_found s.
Proof.
  intros H1 H2 H3. cbv beta iota zeta delta [step]. rewrite H1, H2.
  destruct (pud s); [|congruence]. reflexivity.
Qed.

(** C5 (as the code has it). After a first call has returned true for a
    hugetlbfs target, or a call has returned true with the leaf handle NULL
    and either the level-2 handle NULL as well (a match at level 3) or a
    target that is not a PUD-sized transparent huge page, the next call on
    that state returns false through the clean-up path, whatever the frame
    count. *)
Theorem second_call_after_huge_match (fuel : nat) (s0 s1 : pvmw) :
  page_vma_mapped_walk cfg fuel s0 = Done true s1 ->
  (PageHuge (page s0) = true /\
   pte s0 = None /\ pmd s0 = None /\ pud s0 = None) \/
  (pte s1 = None /\
   (pmd s1 = None \/ pud_sized_thp cfg (page s1) = false)) ->
  forall n,
    page_vma_mapped_walk cfg (S (S n)) s1
    = Done false (page_vma_mapped_walk_done s1).
Proof.
  unfold page_vma_mapped_walk. intros H [(Hh & Hpte & Hpmd & Hpud)|[Hpte Hns]] n.
  - (* hugetlbfs target *)
    destruct fuel as [|k]; [discriminate|]. rewrite run_S in H.
    cbv beta iota zeta delta [step] in H.
    rewrite Hpte, Hpmd, Hpud, Hh in H.
    simpl is_null in H. simpl andb in H. cbv iota in H.
    destruct (huge_pte_offset _ _ _) as [p|]; [|discriminate].
    destruct (check_pte _) as [[|]|]; try discriminate.
    inversion H; subst s1. clear H.
    rewrite run_S, entry_resume_pte by discriminate.
    rewrite run_S. cbv beta iota zeta delta [step].
    change (page (spin_lock (huge_pte_lockptr p)
                    (set_ptl (Some (huge_pte_lockptr p))
                       (set_pte (Some p) s0)))) with (page s0).
    rewrite Hh, orb_true_r. reflexivity.
  - (* collapsed mapping, leaf handle NULL *)
    pose proof (run_true_handle _ _ _ _ H) as Hd.
    destruct (pmd s1) as [pm|] eqn:Epm.
    + destruct Hns as [Hns|Hns]; [discriminate|].
      rewrite run_S, entry_resume_pmd by congruence.
      rewrite run_S. cbv beta iota zeta delta [step].
      unfold pud_sized_thp in Hns. rewrite Hns. reflexivity.
    + rewrite run_S, entry_resume_pud; trivial.
      destruct Hd as [Hd|[Hd|Hd]]; congruence.
Qed.

(** *** The address along a call *)

Lemma drop_ptl_place (s : pvmw) : same_place s (drop_ptl s).
Proof. unfold same_place, drop_ptl. now destruct (ptl s). Qed.

Lemma map_pmd_place (s s' : pvmw) (b : bool) :
  map_pmd cfg s = Some (b, s') -> same_place s s'.
Proof.
  unfold map_pmd. intros H. outcome_cases H;
    inversion H; subst; split; reflexivity.
Qed.

Lemma map_pte_place (s s' : pvmw) (b : bool) :
  map_pte s = Some (b, s') -> same_place s s'.
Proof.
  unfold map_pte. intros H.
  destruct (pmd s); [|discriminate].
  match type of H with
  | (if ?c then _ else _) = _ => destruct c
  end; inversion H; subst; split; reflexivity.
Qed.

Lemma resolve_pmd_place (s s' : pvmw) (l : label) :
  resolve_pmd cfg s = Goto l s' ->
  same_place s s' /\ (l = L_pmd_check \/ l = L_next_pmd).
Proof.
  unfold resolve_pmd. intros H.
  destruct (map_pmd cfg s) as [[[|] t]|] eqn:E; try discriminate;
    inversion H; subst; split; eauto using map_pmd_place.
Qed.

Lemma rank_le (l : label) : (rank l <= 8)%nat.
Proof. destruct l; simpl; lia. Qed.

(** A jump that stays at the address moves down the ranks. *)
Lemma stay_decreases (l l' : label) (s s' : pvmw) :
  same_place s s' -> in_region s -> (rank l' < rank l)%nat ->
  vma s' = vma s /\ in_region s' /\ (measure l' s' < measure l s)%nat.
Proof.
  intros [Hv Ha] Hin Hr. unfold in_region, measure in *.
  rewrite Hv, Ha. repeat split; trivial; lia.
Qed.

(** A jump that advances the address inside the region uses up some of
    it. *)
Lemma advance_decreases (l l' : label) (s s' : pvmw) :
  vma s' = vma s -> address s < address s' < vm_end (vma s) ->
  in_region s ->
  vma s' = vma s /\ in_region s' /\ (measure l' s' < measure l s)%nat.
Proof.
  intros Hv Ha Hin. unfold in_region, measure in *. rewrite Hv.
  pose proof (rank_le l'). repeat split; trivial; lia.
Qed.

(** What a skip loop does to the address when it goes on. *)
Lemma skip_advances (s s1 : pvmw) (size : Z) :
  in_region s -> 0 < size -> vm_end (vma s) + size <= 2 ^ 64 ->
  0 <= vm_start (vma s) ->
  s1 = set_address (ulong (address s + size)) s ->
  exhausted cfg s1 = false ->
  vma s1 = vma s /\ address s < address s1 < vm_end (vma s).
Proof.
  intros [Hlo Hhi] Hsz Hw H0 -> Hex. split; [reflexivity|].
  unfold exhausted in Hex. apply orb_false_iff in Hex.
  destruct Hex as [Hex _]. simpl in *.
  rewrite ulong_small in * by lia.
  destruct (Z.geb_spec (address s + size) (vm_end (vma s)));
    [discriminate|lia].
Qed.

Lemma step_goto (l l' : label) (s s' : pvmw) :
  no_wrap cfg (vma s) -> in_region s ->
  step cfg l s = Goto l' s' ->
  vma s' = vma s /\ in_region s' /\ (measure l' s' < measure l s)%nat.
Proof.
  intros (Hps & Hhs & H0 & Hw1 & Hw2) Hin H. destruct l.
  - cbv beta iota zeta delta [step not_found] in H. outcome_cases H;
      inversion H; subst; apply stay_decreases; trivial;
        try (split; reflexivity); simpl; lia.
  - cbv beta iota zeta delta [step not_found] in H. outcome_cases H;
      apply resolve_pmd_place in H; destruct H as [Hp [-> | ->]];
        apply stay_decreases; trivial; simpl; lia.
  - cbv beta iota zeta delta [step] in H.
    pose proof (check_pmd_cases s) as Hc.
    destruct (check_pmd cfg s) as [[r t]|]; [|discriminate].
    destruct Hc as [_ [(-> & ->)|[(-> & ->)|(-> & lk & El & ->)]]];
      simpl in H; inversion H; subst; apply stay_decreases; trivial;
        try (split; reflexivity); simpl; lia.
  - cbv beta iota zeta delta [step not_found] in H. outcome_cases H.
    inversion H; subst. apply stay_decreases; trivial;
      [split; reflexivity|simpl; lia].
  - cbv beta iota zeta delta [step not_found] in H.
    set (s1 := set_address (ulong (address s + HPAGE_PMD_SIZE cfg)) s) in *.
    destruct (exhausted cfg s1) eqn:Hex; [discriminate|].
    destruct (skip_advances s s1 _ Hin Hhs Hw2 H0 eq_refl Hex) as [Hv Ha].
    outcome_cases H; inversion H; subst; apply advance_decreases; trivial;
      destruct (drop_ptl_place s1) as [Hv' Ha']; rewrite ?Hv', ?Ha'; trivial.
  - cbv beta iota zeta delta [step] in H.
    destruct (map_pte s) as [[[|] t]|] eqn:E; try discriminate;
      inversion H; subst; apply map_pte_place in E;
        apply stay_decreases; trivial; simpl; lia.
  - cbv beta iota zeta delta [step] in H. outcome_cases H.
    inversion H; subst. apply stay_decreases; trivial;
      [split; reflexivity|simpl; lia].
  - cbv beta iota zeta delta [step not_found] in H. outcome_cases H.
    inversion H; subst. apply stay_decreases; trivial;
      [split; reflexivity|simpl; lia].
  - cbv beta iota zeta delta [step not_found] in H.
    set (s1 := set_address (ulong (address s + PAGE_SIZE cfg)) s) in *.
    destruct (exhausted cfg s1) eqn:Hex; [discriminate|].
    destruct (skip_advances s s1 _ Hin Hps Hw1 H0 eq_refl Hex) as [Hv Ha].
    outcome_cases H; inversion H; subst; apply advance_decreases; trivial;
      destruct (drop_ptl_place (pte_unmap s1)) as [Hv' Ha'];
      rewrite ?Hv', ?Ha'; trivial.
Qed.

(** A block that returns true reports the address it was entered with. *)
Lemma step_true_place (l : label) (s s' : pvmw) :
  step cfg l s = Return true s' -> same_place s s'.
Proof.
  intros H. destruct l;
    cbv beta iota zeta delta [step not_found resolve_pmd] in H.
  - outcome_cases H. inversion H; subst. split; reflexivity.
  - outcome_cases H. inversion H; subst. split; reflexivity.
  - pose proof (check_pmd_cases s) as Hc.
    destruct (check_pmd cfg s) as [[r t]|]; [|discriminate].
    destruct Hc as [Hpm [(-> & ->)|[(-> & ->)|(-> & lk & El & ->)]]];
      simpl in H; try discriminate.
    inversion H; subst. split; reflexivity.
  - outcome_cases H.
  - outcome_cases H.
  - outcome_cases H.
  - outcome_cases H. inversion H; subst. split; reflexivity.
  - outcome_cases H.
  - outcome_cases H.
Qed.

Lemma reach_in_region (n : nat) :
  forall l s l' s',
    no_wrap cfg (vma s) -> in_region s ->
    reach cfg n l s = Some (l', s') ->
    vma s' = vma s /\ in_region s'.
Proof.
  induction n as [|n IH]; intros l s l' s' Hw Hin H; simpl in H.
  - inversion H; subst. auto.
  - destruct (step cfg l s) as [b t|l1 t|] eqn:E; try discriminate.
    destruct (step_goto _ _ _ _ Hw Hin E) as (Hv & Hin' & _).
    rewrite <- Hv in Hw. destruct (IH _ _ _ _ Hw Hin' H) as [Hv' Hin''].
    split; [congruence|trivial].
Qed.

Lemma run_true_in_region (fuel : nat) :
  forall l s s',
    no_wrap cfg (vma s) -> in_region s ->
    run cfg fuel l s = Done true s' ->
    vma s' = vma s /\ in_region s'.
Proof.
  induction fuel as [|n IH]; intros l s s' Hw Hin H; [discriminate|].
  rewrite run_S in H.
  destruct (step cfg l s) as [b t|l1 t|] eqn:E; try discriminate.
  - inversion H; subst. destruct (step_true_place _ _ _ E) as [Hv Ha].
    split; trivial. unfold in_region in *. now rewrite Hv, Ha.
  - destruct (step_goto _ _ _ _ Hw Hin E) as (Hv & Hin' & _).
    rewrite <- Hv in Hw. destruct (IH _ _ _ Hw Hin' H) as [Hv' Hin''].
    split; [congruence|trivial].
Qed.

(** The walker returns: a call started inside the region needs no more
    blocks than its measure. *)
Lemma run_terminates (fuel : nat) :
  forall l s,
    no_wrap cfg (vma s) -> in_region s ->
    (measure l s < fuel)%nat ->
    run cfg fuel l s <> Timeout.
Proof.
  induction fuel as [|n IH]; intros l s Hw Hin Hm; [lia|].
  rewrite run_S.
  destruct (step cfg l s) as [b t|l1 t|] eqn:E; try discriminate.
  destruct (step_goto _ _ _ _ Hw Hin E) as (Hv & Hin' & Hlt).
  rewrite <- Hv in Hw. apply IH; trivial. lia.
Qed.

(** *** No NULL handle is dereferenced *)

Lemma step_handles (l : label) (s : pvmw) :
  handles_set l s -> handles_post (step cfg l s).
Proof.
  destruct l; intros H;
    [|cbv beta iota zeta delta [step]..].
  - (* entry *)
    destruct (pte s) as [pt|] eqn:Ept.
    + rewrite entry_resume_pte by congruence.
      simpl. split; [congruence|].
      destruct H as [H|(H & _)]; [now left|congruence].
    + destruct (pmd s) as [pm|] eqn:Epm;
        [rewrite entry_resume_pmd by congruence; simpl; congruence|].
      destruct (pud s) as [pu|] eqn:Epu;
        [rewrite entry_resume_pud by congruence; exact I|].
      cbv beta iota zeta delta [step]. rewrite Ept, Epm, Epu.
      simpl is_null. simpl andb. cbv iota.
      destruct (PageHuge (page s)); [|exact I].
      destruct (huge_pte_offset _ _ _) as [p|]; [|exact I].
      unfold check_pte. simpl.
      repeat match goal with
             | |- context [if ?b then _ else _] => destruct b
             end; simpl; trivial; left; discriminate.
  - (* restart *)
    assert (Hr : forall t, pud t <> None -> handles_post (resolve_pmd cfg t)).
    { intros t Ht. unfold resolve_pmd, map_pmd.
      destruct (pud t) as [pu|]; [|congruence].
      repeat match goal with
             | |- context [if ?b then _ else _] => destruct b
             end; simpl; try split; discriminate. }
    repeat match goal with
           | |- context [if ?b then _ else _] => destruct b
           end; simpl; trivial; try (left; discriminate);
      apply Hr; discriminate.
  - (* pmd_check *)
    destruct H as [Hpm Hl].
    unfold check_pmd.
    destruct (pmd s) as [pm|] eqn:Epm; [|congruence].
    destruct (ptl s) as [lk|] eqn:El; [|congruence].
    repeat match goal with
           | |- context [if ?b then Some _ else _] => destruct b
           end; simpl; first [congruence | left; congruence].
  - (* next_pmd *)
    destruct (negb _); simpl; trivial.
  - (* pmd_skip *)
    simpl in H. set (s1 := set_address _ s).
    destruct (exhausted cfg s1); [exact I|].
    destruct (_ =? 0); [exact I|].
    change (pmd s1) with (pmd s). destruct (pmd s) as [pm|]; [|congruence].
    destruct (pmd_none _); [simpl; discriminate|].
    destruct (is_null _) eqn:En; simpl; (split; [discriminate|]).
    + discriminate.
    + simpl in En. destruct (ptl s); [discriminate|discriminate].
  - (* pte_level *)
    simpl in H. unfold map_pte.
    destruct (pmd s) as [pm|] eqn:Epm; [|congruence].
    match goal with
    | |- context [if ?b then Some (false, _) else _] => destruct b
    end; simpl; split; try discriminate. right. congruence.
  - (* pte_check *)
    destruct H as [Hpt Hl]. unfold check_pte.
    destruct (pte s) as [pt|] eqn:Ept; [|congruence].
    repeat match goal with
           | |- context [if ?b then _ else _] => destruct b
           end; simpl; try (left; exact Hl);
      (split; [congruence|now left]).
  - (* next_pte *)
    destruct (_ || _); simpl; trivial.
  - (* pte_skip *)
    destruct H as [Hpt Hd].
    set (s1 := set_address _ s).
    destruct (exhausted cfg s1); [exact I|].
    destruct (_ =? 0); [exact I|].
    change (pte s1) with (pte s).
    destruct (pte s) as [pt|] eqn:Ept; [|congruence].
    destruct (pte_none _); [simpl; split; [discriminate|exact Hd]|].
    destruct (is_null _) eqn:En.
    + simpl in En. destruct (ptl s) eqn:El; [discriminate|].
      change (pmd (set_pte (Some (pt + 1)) s1)) with (pmd s).
      destruct (pmd s) as [pm|] eqn:Epm; simpl.
      * split; discriminate.
      * destruct Hd as [Hd|Hd]; congruence.
    + simpl in *. destruct (ptl s) eqn:El; [|discriminate].
      split; [discriminate|congruence].
Qed.

Lemma run_handles (fuel : nat) :
  forall l s, handles_set l s ->
  match run cfg fuel l s with
  | Fault => False
  | Done true s' => locked_or_fresh s'
  | _ => True
  end.
Proof.
  induction fuel as [|n IH]; intros l s H; [exact I|].
  rewrite run_S. pose proof (step_handles l s H) as Hp.
  destruct (step cfg l s) as [[|] s'|l' s'|]; simpl in Hp; trivial.
  now apply IH.
Qed.

(** X21. The walker returns a result: called inside the region, on a fresh state
    or on one a call that returned true left behind, it neither faults nor
    runs beyond its measure. *)
Lemma walk_returns (s : pvmw) :
  no_wrap cfg (vma s) -> in_region s -> locked_or_fresh s ->
  exists b s',
    page_vma_mapped_walk cfg (S (measure L_entry s)) s = Done b s'.
Proof.
  intros Hw Hin Hs. unfold page_vma_mapped_walk.
  pose proof (run_handles (S (measure L_entry s)) L_entry s Hs) as Hf.
  pose proof (run_terminates (S (measure L_entry s)) L_entry s Hw Hin) as Ht.
  destruct (run cfg (S (measure L_entry s)) L_entry s) as [b s'| |].
  - eauto.
  - contradiction.
  - exfalso. apply Ht; [lia|reflexivity].
Qed.

(** C9 (as the code has it). A call entered with its address inside the
    region, at or above its start and strictly below its end, in a region
    that ends far enough below 2^64 for the additions not to wrap, keeps
    the address there for as long as it runs: at every program point it
    reaches, and in the state it reports when it returns true, the address
    is at or above the start of the region and strictly below its end; and
    the call ends within the number of blocks its measure allows.  The
    walker itself never compares the address it is entered with against
    the end of the region. *)
Theorem walk_address_stays_in_region (s : pvmw) :
  no_wrap cfg (vma s) -> in_region s ->
  (forall n l' s', reach cfg n L_entry s = Some (l', s') ->
                   vma s' = vma s /\ in_region s') /\
  (forall fuel s', page_vma_mapped_walk cfg fuel s = Done true s' ->
                   vma s' = vma s /\ in_region s') /\
  page_vma_mapped_walk cfg (S (measure L_entry s)) s <> Timeout.
Proof.
  intros Hw Hin. split; [|split].
  - intros n l' s' H. eapply reach_in_region; eauto.
  - intros fuel s' H. eapply run_true_in_region; eauto.
  - apply run_terminates; trivial. lia.
Qed.

(** *** The containment check *)

(** The test [end < vma->vm_start || start >= vma->vm_end] decides whether
    the address range of the page misses the region, for page-aligned
    addresses and a range that does not wrap around. *)
Lemma span_test_spec (pg : struct_page) (v : vm_area_struct) :
  let start := __vma_address cfg pg v in
  let end_ :=
    ulong (start + ulong (PAGE_SIZE cfg * (hpage_nr_pages pg - 1))) in
  0 < PAGE_SIZE cfg -> 1 <= hpage_nr_pages pg ->
  (PAGE_SIZE cfg | start) -> (PAGE_SIZE cfg | vm_start v) ->
  0 <= start -> start + hpage_nr_pages pg * PAGE_SIZE cfg <= 2 ^ 64 ->
  vm_start v < vm_end v ->
  ((end_ <? vm_start v) || (start >=? vm_end v) = true
   <-> span_outside_region cfg pg v).
Proof.
  intros start end_ Hps Hnr [k Hk] [j Hj] H0 Hw Hv.
  assert (He : end_ = start + PAGE_SIZE cfg * (hpage_nr_pages pg - 1)).
  { unfold end_. rewrite (ulong_small (PAGE_SIZE cfg * _)) by nia.
    apply ulong_small. nia. }
  rewrite orb_true_iff, Z.ltb_lt, Z.geb_le, He.
  unfold span_outside_region. fold start. split.
  - intros [H|H] a Ha Hr; [|lia].
    assert (k + hpage_nr_pages pg - 1 < j) by nia.
    assert (start + hpage_nr_pages pg * PAGE_SIZE cfg <= vm_start v) by nia.
    lia.
  - intros H.
    destruct (Z_lt_le_dec start (vm_end v)) as [Hlt|Hge]; [|now right].
    left.
    destruct (Z_lt_le_dec (start + PAGE_SIZE cfg * (hpage_nr_pages pg - 1))
                          (vm_start v)) as [Hl|Hg]; trivial.
    exfalso. apply (H (Z.max start (vm_start v))); nia.
Qed.

(** X22. Where the expected address of the page is page-aligned and not
    below zero, and its address range does not wrap around 2^64,
    [page_mapped_in_vma] does what its range test is for: when the range
    misses the region it answers 0 without calling the walker; otherwise it
    calls the walker on a fresh state whose address is the expected address
    clipped up to the start of the region, an address of the region, and
    whose only flag is Sync. *)
Theorem page_mapped_in_vma_span (fuel : nat) (pg : struct_page)
        (v : vm_area_struct) :
  let start := __vma_address cfg pg v in
  let s := fresh_walk pg v (Z.max start (vm_start v)) PVMW_SYNC in
  0 < PAGE_SIZE cfg -> 1 <= hpage_nr_pages pg ->
  (PAGE_SIZE cfg | start) -> (PAGE_SIZE cfg | vm_start v) ->
  0 <= start -> start + hpage_nr_pages pg * PAGE_SIZE cfg <= 2 ^ 64 ->
  vm_start v < vm_end v ->
  (span_outside_region cfg pg v ->
   page_mapped_in_vma cfg fuel pg v = Done false (pvmw_init pg v)) /\
  (~ span_outside_region cfg pg v ->
   page_mapped_in_vma cfg fuel pg v
   = match page_vma_mapped_walk cfg fuel s with
     | Done true s' => Done true (page_vma_mapped_walk_done s')
     | r => r
     end /\
   in_region s /\
   flag_set (flags s) PVMW_SYNC = true /\
   flag_set (flags s) PVMW_MIGRATION = false).
Proof.
  intros start s Hps Hnr Hd1 Hd2 H0 Hw Hv.
  pose proof (span_test_spec pg v Hps Hnr Hd1 Hd2 H0 Hw Hv) as Ht.
  fold start in Ht. unfold page_mapped_in_vma. fold start. split.
  - intros Hout. apply Ht in Hout. now rewrite Hout.
  - intros Hin.
    destruct ((_ <? vm_start v) || (start >=? vm_end v)) eqn:E.
    + exfalso. now apply Hin, Ht.
    + split; [reflexivity|]. split; [|split; reflexivity].
      apply orb_false_iff in E. destruct E as [_ E].
      unfold in_region. simpl.
      destruct (Z.geb_spec start (vm_end v)); [discriminate|lia].
Qed.

End Properties.

(** ** The walker on explicit inputs *)

(** The states named above are the ones the walker produces. *)
Example walk_two_ptes_is_second_match :
  page_vma_mapped_walk x86_64 8
    (fresh_walk thp_page region_two_ptes 1073733632 0)
  = Done true walk_two_ptes_first /\
  page_vma_mapped_walk x86_64 8 walk_two_ptes_first
  = Done true walk_two_ptes.
Proof. split; reflexivity. Qed.

Example walk_pmd_huge_first_call :
  page_vma_mapped_walk x86_64 8 (walk_pmd_huge 0)
  = Done true (walk_pmd_huge_found 0).
Proof. reflexivity. Qed.

(** A compound page whose leaf entries straddle two leaf tables: the call
    after the last entry of the first table restarts at the boundary and
    reports the first entry of the second table, with its own handles and
    lock, and the one after that reports the next entry. *)
Example walk_finds_both_halves :
  page_vma_mapped_walk x86_64 8 walk_before_boundary
  = Done true walk_after_boundary /\
  page_vma_mapped_walk x86_64 8 walk_after_boundary
  = Done true walk_after_boundary_next /\
  page_vma_mapped_walk x86_64 8 walk_after_boundary_next
  = Done false walk_straddle_end.
Proof. repeat split; reflexivity. Qed.

(** C1, on an input: the call after the second match in [region_two_ptes]
    crosses into a leaf table whose level-3 entry is absent and leaves by
    the plain return; nothing is held or mapped afterwards. *)
Lemma walk_false_is_cleaned_up_witness :
  walk_ok walk_two_ptes /\
  page_vma_mapped_walk x86_64 4 walk_two_ptes = Done false walk_two_ptes_end /\
  cleaned_up walk_two_ptes_end.
Proof.
  assert (Hok : walk_ok walk_two_ptes).
  { unfold walk_ok, ledger_ok, kmap_ok. simpl.
    repeat split; auto; try discriminate. intros _. left. discriminate. }
  assert (Hrun : page_vma_mapped_walk x86_64 4 walk_two_ptes
                 = Done false walk_two_ptes_end) by reflexivity.
  split; [exact Hok|]. split; [exact Hrun|].
  exact (walk_false_is_cleaned_up x86_64 4 walk_two_ptes walk_two_ptes_end
                                  Hok Hrun).
Defined.

(** C2 refuted as stated: paused at the last leaf entry of the page, the
    skip loop reports exhaustion at an address that has left the range of
    the page but still lies inside the region. *)
Lemma pte_skip_stops_inside_region :
  step x86_64 L_pte_skip walk_last_pte = Return false walk_last_pte_end /\
  page_vma_mapped_walk x86_64 4 walk_last_pte = Done false walk_last_pte_end /\
  page_span_end x86_64 walk_last_pte_end = address walk_last_pte_end /\
  in_region walk_last_pte_end.
Proof.
  split; [reflexivity|]. split; [reflexivity|]. split; [reflexivity|].
  unfold in_region. simpl. lia.
Qed.


(** C3 refuted as stated: the level-3 entry is collapsed when first read
    and still collapsed under its lock, the MigrationAware flag is set, and
    the call ends there, returning false, instead of going on to level 2. *)
Lemma pud_huge_no_match_returns_false :
  pud_trans_huge (pud_val (tables walk_pud_migration) 1) = true /\
  pud_trans_huge
    (pud_val (tables (pud_lock 1 (set_pud (Some 1) walk_pud_migration))) 1)
  = true /\
  flag_set (flags walk_pud_migration) PVMW_MIGRATION = true /\
  step x86_64 L_restart walk_pud_migration
  = Return false walk_pud_migration_end /\
  page_vma_mapped_walk x86_64 4 walk_pud_migration
  = Done false walk_pud_migration_end.
Proof. repeat split; reflexivity. Qed.

(** C3, on inputs: the same call, and a call during which the entry is
    split before the lock is held. *)
Lemma pud_huge_no_match_ends_walk_witness :
  (step x86_64 L_restart walk_pud_migration
   = Return false walk_pud_migration_end /\
   ptl walk_pud_migration_end = None /\
   held walk_pud_migration_end = held walk_pud_migration) /\
  (step x86_64 L_restart walk_pud_split
   = resolve_pmd x86_64 walk_pud_split_unlocked /\
   ptl walk_pud_split_unlocked = None /\
   held walk_pud_split_unlocked = held walk_pud_split /\
   exists l s', resolve_pmd x86_64 walk_pud_split_unlocked = Goto l s' /\
                (l = L_pmd_check \/ l = L_next_pmd)).
Proof.
  split.
  - exact (proj1 (pud_huge_no_match_ends_walk x86_64 walk_pud_migration
                    eq_refl eq_refl eq_refl)
                 eq_refl (or_introl eq_refl)).
  - exact (proj2 (pud_huge_no_match_ends_walk x86_64 walk_pud_split
                    eq_refl eq_refl eq_refl)
                 eq_refl).
Defined.

(** C4, on inputs: the placeholder for frame 600 of [thp_page] with and
    without the flag. *)
Lemma check_pte_migration_placeholder_witness :
  check_pte (walk_migrating PVMW_MIGRATION) = Some true /\
  check_pte (walk_migrating 0) = Some false.
Proof.
  assert (Hin : in_target_frames thp_page 600).
  { unfold in_target_frames, target_frames. simpl. lia. }
  assert (Hnr : 0 <= hpage_nr_pages thp_page < 2 ^ 64).
  { simpl. lia. }
  split.
  - exact (proj1 (check_pte_migration_placeholder x86_64
                    (walk_migrating PVMW_MIGRATION) 262144
                    {| swp_type := SwpMigration; swp_offset := 600 |}
                    eq_refl eq_refl eq_refl Hin Hnr)).
  - exact (proj1 (check_pte_migration_placeholder x86_64
                    (walk_migrating 0) 262144
                    {| swp_type := SwpMigration; swp_offset := 600 |}
                    eq_refl eq_refl eq_refl Hin Hnr)).
Defined.

(** C5 refuted as stated: [pud_thp_page] is mapped by collapsed level-2
    entries; the first call reports the first of them with the leaf handle
    NULL, and the call that follows returns true again, for the second. *)
Lemma pmd_match_is_followed_by_a_match :
  page_vma_mapped_walk x86_64 8 walk_pud_by_pmds
  = Done true walk_pud_by_pmds_first /\
  pte walk_pud_by_pmds_first = None /\
  pmd walk_pud_by_pmds_first = Some 512 /\
  page_vma_mapped_walk x86_64 8 walk_pud_by_pmds_first
  = Done true walk_pud_by_pmds_second.
Proof. repeat split; reflexivity. Qed.

(** C5, on inputs: a 2 MiB transparent huge page mapped by a collapsed
    level-2 entry, a hugetlbfs page, and a 1 GiB transparent huge page
    mapped by a collapsed level-3 entry. *)
Lemma second_call_after_huge_match_witness :
  (page_vma_mapped_walk x86_64 8 (walk_pmd_huge 0)
   = Done true (walk_pmd_huge_found 0) /\
   page_vma_mapped_walk x86_64 2 (walk_pmd_huge_found 0)
   = Done false (page_vma_mapped_walk_done (walk_pmd_huge_found 0))) /\
  (page_vma_mapped_walk x86_64 8 walk_hugetlb = Done true walk_hugetlb_found /\
   page_vma_mapped_walk x86_64 2 walk_hugetlb_found
   = Done false (page_vma_mapped_walk_done walk_hugetlb_found)) /\
  (page_vma_mapped_walk x86_64 8 walk_pud_huge = Done true walk_pud_huge_found /\
   page_vma_mapped_walk x86_64 2 walk_pud_huge_found
   = Done false (page_vma_mapped_walk_done walk_pud_huge_found)).
Proof.
  assert (H3 : page_vma_mapped_walk x86_64 8 walk_pud_huge
               = Done true walk_pud_huge_found) by reflexivity.
  assert (H1 : page_vma_mapped_walk x86_64 8 (walk_pmd_huge 0)
               = Done true (walk_pmd_huge_found 0)) by reflexivity.
  assert (H2 : page_vma_mapped_walk x86_64 8 walk_hugetlb
               = Done true walk_hugetlb_found) by reflexivity.
  split; [|split]; (split; [assumption|]).
  - exact (second_call_after_huge_match x86_64 8 _ _ H1
             (or_intror (conj eq_refl (or_intror eq_refl))) 0%nat).
  - exact (second_call_after_huge_match x86_64 8 _ _ H2
             (or_introl (conj eq_refl (conj eq_refl (conj eq_refl eq_refl))))
             0%nat).
  - exact (second_call_after_huge_match x86_64 8 _ _ H3
             (or_intror (conj eq_refl (or_introl eq_refl))) 0%nat).
Defined.

(** C7, on an input: a hugetlbfs page that is mapped nowhere. *)
Lemma hugetlb_missing_entry_plain_return_witness :
  step x86_64 L_entry walk_hugetlb_absent = Return false walk_hugetlb_absent /\
  page_vma_mapped_walk x86_64 1 walk_hugetlb_absent
  = Done false walk_hugetlb_absent.
Proof.
  destruct (hugetlb_missing_entry_plain_return x86_64 walk_hugetlb_absent
              eq_refl eq_refl eq_refl eq_refl eq_refl) as (H1 & H2 & _).
  split; [exact H1|exact (H2 0%nat)].
Defined.

(** C10, on an input: the collapsed entry of [mm_pmd_huge] under the
    flag. *)
Lemma check_pmd_migration_aware_witness :
  check_pmd x86_64 (walk_pmd_huge_found PVMW_MIGRATION)
  = Some (0, walk_pmd_huge_found PVMW_MIGRATION).
Proof.
  exact (proj1 (check_pmd_migration_aware x86_64
                  (walk_pmd_huge_found PVMW_MIGRATION) 512 eq_refl eq_refl)
               eq_refl).
Defined.

(** C9, on an input: the call that crosses the table boundary in
    [region_straddle]. *)
Lemma walk_address_stays_in_region_witness :
  no_wrap x86_64 (vma walk_before_boundary) /\
  in_region walk_before_boundary /\
  page_vma_mapped_walk x86_64 8 walk_before_boundary
  = Done true walk_after_boundary /\
  in_region walk_after_boundary.
Proof.
  assert (Hw : no_wrap x86_64 (vma walk_before_boundary)).
  { unfold no_wrap. simpl. lia. }
  assert (Hin : in_region walk_before_boundary).
  { unfold in_region. simpl. lia. }
  assert (Hrun : page_vma_mapped_walk x86_64 8 walk_before_boundary
                 = Done true walk_after_boundary) by reflexivity.
  split; [exact Hw|]. split; [exact Hin|]. split; [exact Hrun|].
  exact (proj2 (proj1 (proj2 (walk_address_stays_in_region x86_64
                                walk_before_boundary Hw Hin))
                      8%nat walk_after_boundary Hrun)).
Defined.

(** C9 refuted as stated: a walk entered at or above the start of its
    region need not stay inside it.  Entered at the very end of the region,
    where the page happens to be mapped, the first call returns true at
    that address; and in a region at the top of the address space a walk
    entered at the start of the region wraps around and returns true at
    address 0, below the region. *)
Lemma walk_reports_address_outside_region :
  (vm_start (vma walk_at_region_end) <= address walk_at_region_end /\
   page_vma_mapped_walk x86_64 5 walk_at_region_end
   = Done true walk_at_region_end_found /\
   address walk_at_region_end_found
   = vm_end (vma walk_at_region_end_found)) /\
  (page_vma_mapped_walk x86_64 3 walk_top = Done true walk_top_first /\
   in_region walk_top_first /\
   page_vma_mapped_walk x86_64 5 walk_top_first
   = Done true walk_top_wrapped /\
   address walk_top_wrapped < vm_start (vma walk_top_wrapped)).
Proof.
  split.
  - split; [simpl; lia|]. split; reflexivity.
  - split; [reflexivity|]. split; [unfold in_region; simpl; lia|].
    split; reflexivity.
Qed.

(** C6. The leaf handle outlives the restart at a leaf-table boundary.
    For [pud_thp_page] in [region_pud_mixed] the first call reports the
    last entry of the leaf table.  The second call advances onto the
    boundary, unmaps the table, drops the lock and jumps to [restart], as
    it should, but leaves the handle in [pte]; it returns true for the
    collapsed level-2 entry 513 with [pte] still set, where the function's
    own description has [pte] unset for such a match.  The third call
    therefore resumes at [next_pte] instead of [next_pmd]: it steps the old
    handle to the entry behind the table that is no longer mapped and reads
    it, holding the level-2 lock.  After the same match reported with [pte]
    NULL, the next call goes to the level-2 skip loop. *)
Theorem leaf_handle_survives_boundary_restart :
  page_vma_mapped_walk x86_64 5 walk_pud_mixed
  = Done true walk_pud_mixed_leaf /\
  (reach x86_64 3 L_entry walk_pud_mixed_leaf
   = Some (L_restart, walk_pud_mixed_restart) /\
   address walk_pud_mixed_restart mod PMD_SIZE x86_64 = 0 /\
   held walk_pud_mixed_restart = [] /\
   kmapped walk_pud_mixed_restart = O /\
   pte walk_pud_mixed_restart = pte walk_pud_mixed_leaf) /\
  (page_vma_mapped_walk x86_64 5 walk_pud_mixed_leaf
   = Done true walk_pud_mixed_pmd /\
   check_pmd x86_64 walk_pud_mixed_pmd = Some (1, walk_pud_mixed_pmd) /\
   pte walk_pud_mixed_pmd = pte walk_pud_mixed_leaf /\
   kmapped walk_pud_mixed_pmd = O) /\
  (reach x86_64 3 L_entry walk_pud_mixed_pmd
   = Some (L_pte_skip, walk_pud_mixed_stale) /\
   pte walk_pud_mixed_stale = Some (262655 + 1) /\
   kmapped walk_pud_mixed_stale = O /\
   ptl walk_pud_mixed_stale = Some (pmd_lockptr 513)) /\
  (page_vma_mapped_walk x86_64 3
     (fresh_walk pud_thp_page region_pud_mixed 1075838976 0)
   = Done true walk_pud_mixed_pmd_fresh /\
   reach x86_64 2 L_entry walk_pud_mixed_pmd_fresh
   = Some (L_pmd_skip, walk_pud_mixed_pmd_fresh)).
Proof. repeat split; reflexivity. Qed.

(** C8. [page_mapped_in_vma] answers 0 for a page that is mapped in the
    region when the expected address of the page lies below zero.  For
    [thp_page] in [region_low] the expected address, minus 960 KiB, wraps
    around to 2^64 minus 960 KiB; the test [start >= vma->vm_end] then
    holds and the function returns 0 without calling the walker, for any
    fuel.  Yet the 512 pages from the expected address on reach into the
    region, and the walker, called at the start of the region as the
    containment check sets it up, finds the page there. *)
Theorem page_mapped_in_vma_misses_wrapped_start :
  (vm_start region_low
   + (page_index thp_page - vm_pgoff region_low) * PAGE_SIZE x86_64
   = -983040 /\
   __vma_address x86_64 thp_page region_low = 2 ^ 64 - 983040) /\
  (vm_start region_low
   < -983040 + hpage_nr_pages thp_page * PAGE_SIZE x86_64 /\
   -983040 < vm_end region_low) /\
  (forall fuel,
     page_mapped_in_vma x86_64 fuel thp_page region_low
     = Done false (pvmw_init thp_page region_low)) /\
  page_vma_mapped_walk x86_64 5 walk_low = Done true walk_low_found /\
  check_pte walk_low_found = Some true.
Proof.
  split; [split; reflexivity|]. split; [split; reflexivity|].
  split; [intros fuel; reflexivity|]. split; reflexivity.
Qed.

(** X22, on inputs: [thp_page] in the region that maps it, and a page whose
    address range lies beyond the end of the region. *)
Lemma page_mapped_in_vma_span_witness :
  (page_mapped_in_vma x86_64 8 thp_page region_full_table
   = match page_vma_mapped_walk x86_64 8
             (fresh_walk thp_page region_full_table 1073741824 PVMW_SYNC)
     with
     | Done true s' => Done true (page_vma_mapped_walk_done s')
     | r => r
     end /\
   in_region (fresh_walk thp_page region_full_table 1073741824 PVMW_SYNC)) /\
  page_mapped_in_vma x86_64 0 far_page region_full_table
  = Done false (pvmw_init far_page region_full_table).
Proof.
  assert (Hps : 0 < PAGE_SIZE x86_64) by reflexivity.
  assert (Hv : vm_start region_full_table < vm_end region_full_table)
    by reflexivity.
  assert (Hd : (PAGE_SIZE x86_64 | vm_start region_full_table))
    by (exists 262144; reflexivity).
  split.
  - assert (Hs : __vma_address x86_64 thp_page region_full_table
                 = 1073741824) by reflexivity.
    assert (Hnot : ~ span_outside_region x86_64 thp_page region_full_table).
    { unfold span_outside_region. rewrite Hs. intros H.
      apply (H 1073741824); simpl; lia. }
    destruct (proj2 (page_mapped_in_vma_span x86_64 8 thp_page
                       region_full_table Hps
                       ltac:(vm_compute; discriminate) Hd Hd
                       ltac:(vm_compute; discriminate)
                       ltac:(vm_compute; discriminate) Hv) Hnot)
      as (H1 & H2 & _).
    split; [exact H1|exact H2].
  - assert (Hs : __vma_address x86_64 far_page region_full_table
                 = 1077936128) by reflexivity.
    assert (Hout : span_outside_region x86_64 far_page region_full_table).
    { unfold span_outside_region. rewrite Hs. simpl. intros a Ha. lia. }
    exact (proj1 (page_mapped_in_vma_span x86_64 0 far_page
                    region_full_table Hps
                    ltac:(vm_compute; discriminate)
                    ltac:(exists 263168; reflexivity) Hd
                    ltac:(vm_compute; discriminate)
                    ltac:(vm_compute; discriminate) Hv) Hout).
Defined.

(** ** Further properties of the walker and its helpers *)

Section FurtherProperties.

Variable cfg : platform.

(** *** What a true result stands for *)

(** X1. A call that returns true from a caller-legal state holds exactly
    one lock, the one recorded in [ptl]. *)
Theorem walk_true_holds_one_lock (fuel : nat) (s s' : pvmw) :
  walk_ok s -> locked_or_fresh s ->
  page_vma_mapped_walk cfg fuel s = Done true s' ->
  exists l, ptl s' = Some l /\ held s' = [l].
Proof.
  intros Hok Hs H. unfold page_vma_mapped_walk in H.
  pose proof (run_post cfg fuel L_entry s Hok) as P.
  pose proof (run_handles cfg fuel L_entry s Hs) as Q.
  pose proof (run_true_handle cfg fuel _ _ _ H) as R.
  rewrite H in P, Q. destruct P as (Hl & _).
  unfold ledger_ok in Hl.
  destruct (ptl s') as [l|] eqn:El.
  - exists l. auto.
  - exfalso. destruct Q as [Q|(Q1 & Q2 & Q3)]; [congruence|].
    destruct R as [R|[R|R]]; congruence.
Qed.

Lemma step_true_backed (l : label) (s s' : pvmw) :
  step cfg l s = Return true s' -> backed_match cfg s'.
Proof.
  intros H. destruct l;
    cbv beta iota zeta delta [step not_found resolve_pmd] in H.
  - outcome_cases H. inversion H; subst. left. assumption.
  - outcome_cases H. inversion H; subst. right. right.
    match goal with
    | |- context [set_pud (Some ?p) s] => exists p
    end.
    repeat split; trivial.
    match goal with
    | E : negb (_ =? _) = false |- _ =>
      apply negb_false_iff, Z.eqb_eq in E; exact E
    end.
  - pose proof (check_pmd_cases cfg s) as Hc.
    destruct (check_pmd cfg s) as [[r t]|] eqn:E; [|discriminate].
    destruct Hc as [Hpm [(-> & ->)|[(-> & ->)|(-> & lk & El & ->)]]];
      simpl in H; try discriminate.
    inversion H; subst. right. left. exact E.
  - outcome_cases H.
  - outcome_cases H.
  - outcome_cases H.
  - destruct (check_pte s) as [[|]|] eqn:Ec; try discriminate.
    inversion H; subst. left. exact Ec.
  - outcome_cases H.
  - outcome_cases H.
Qed.

(** X2. Whenever a call returns true, the entry it reports has just passed
    the check of its level: [check_pte] for a leaf entry, [check_pmd] with
    answer 1 for a level-2 entry, or the locked re-read of a collapsed
    level-3 entry that maps the target. *)
Theorem walk_true_is_backed (fuel : nat) (s s' : pvmw) :
  page_vma_mapped_walk cfg fuel s = Done true s' -> backed_match cfg s'.
Proof.
  unfold page_vma_mapped_walk. generalize L_entry as l. revert s.
  induction fuel as [|n IH]; intros s l H; [discriminate|].
  rewrite run_S in H.
  destruct (step cfg l s) as [b t|l' t|] eqn:E; try discriminate.
  - inversion H; subst. eapply step_true_backed; eauto.
  - eapply IH; eauto.
Qed.

(** *** What the walker leaves alone *)

Lemma done_same_target (s : pvmw) :
  same_target s (page_vma_mapped_walk_done s).
Proof.
  unfold same_target, page_vma_mapped_walk_done, drop_ptl.
  destruct (pte s); simpl; destruct (ptl s); simpl; auto.
Qed.

Lemma step_same_target (l : label) (s : pvmw) :
  target_post s (step cfg l s).
Proof.
  assert (Hd : forall t, same_target s t ->
                         same_target s (page_vma_mapped_walk_done t)).
  { intros t (H1 & H2 & H3).
    destruct (done_same_target t) as (G1 & G2 & G3).
    repeat split; congruence. }
  assert (Hp : forall t, same_target s t ->
                         target_post s (resolve_pmd cfg t)).
  { intros t Ht. unfold resolve_pmd, map_pmd.
    destruct (pud t); simpl; trivial.
    repeat match goal with
           | |- context [if ?b then _ else _] => destruct b
           end; simpl; exact Ht. }
  assert (Hq : forall t, same_target s t ->
                         target_post s (Goto L_restart (drop_ptl t))).
  { intros t Ht. simpl. unfold drop_ptl. destruct (ptl t); exact Ht. }
  assert (Hr : same_target s s) by (repeat split).
  destruct l; cbv beta iota zeta delta [step not_found].
  - repeat match goal with
           | |- context [if ?b then _ else _] => destruct b
           end; simpl; auto.
    destruct (huge_pte_offset _ _ _); simpl; trivial.
    destruct (check_pte _) as [[|]|]; simpl; auto;
      try (apply Hd; repeat split).
  - repeat match goal with
           | |- context [if ?b then _ else _] => destruct b
           end; simpl; auto; try (apply Hd; repeat split);
      apply Hp; repeat split.
  - pose proof (check_pmd_cases cfg s) as Hc.
    destruct (check_pmd cfg s) as [[r t]|]; [|exact I].
    destruct Hc as [_ [(-> & ->)|[(-> & ->)|(-> & lk & El & ->)]]];
      simpl; repeat split.
  - destruct (negb _); simpl; auto.
  - set (s1 := set_address _ s).
    assert (H1 : same_target s s1) by (repeat split).
    destruct (exhausted cfg s1); [now apply Hd|].
    destruct (_ =? 0); [now apply Hq|].
    destruct (pmd s1); [|exact I].
    destruct (pmd_none _); [repeat split|].
    destruct (is_null _); repeat split.
  - unfold map_pte. destruct (pmd s); simpl; trivial.
    match goal with
    | |- context [if ?b then Some (false, _) else _] => destruct b
    end; simpl; repeat split.
  - destruct (check_pte s) as [[|]|]; simpl; auto.
  - destruct (_ || _); simpl; auto.
  - set (s1 := set_address _ s).
    assert (H1 : same_target s s1) by (repeat split).
    destruct (exhausted cfg s1); [now apply Hd|].
    destruct (_ =? 0); [apply Hq; repeat split|].
    destruct (pte s1); [|exact I].
    destruct (pte_none _); [repeat split|].
    destruct (is_null _); [|repeat split].
    destruct (pmd _); [repeat split|exact I].
Qed.

(** X3. Whatever a call returns, it has not changed the page it searches
    for, the region it searches, or the flags. *)
Theorem walk_keeps_target (fuel : nat) (s s' : pvmw) (b : bool) :
  page_vma_mapped_walk cfg fuel s = Done b s' -> same_target s s'.
Proof.
  unfold page_vma_mapped_walk. generalize L_entry as l. revert s.
  induction fuel as [|n IH]; intros s l H; [discriminate|].
  rewrite run_S in H. pose proof (step_same_target l s) as P.
  destruct (step cfg l s) as [b' t|l' t|] eqn:E; try discriminate.
  - inversion H; subst. exact P.
  - destruct P as (P1 & P2 & P3).
    destruct (IH _ _ H) as (Q1 & Q2 & Q3).
    repeat split; congruence.
Qed.

(** X4. For a target that is not a transparent huge page a match is final:
    the call after one that returned true returns false through the
    clean-up path, at whatever level the match was. *)
Theorem ordinary_page_match_is_final (fuel : nat) (s0 s1 : pvmw) :
  PageTransHuge (page s1) = false ->
  page_vma_mapped_walk cfg fuel s0 = Done true s1 ->
  forall n,
    page_vma_mapped_walk cfg (S (S n)) s1
    = Done false (page_vma_mapped_walk_done s1).
Proof.
  unfold page_vma_mapped_walk. intros Hn H n.
  pose proof (run_true_handle cfg _ _ _ _ H) as Hd.
  destruct (pte s1) as [pt|] eqn:Ept.
  - rewrite run_S, entry_resume_pte by congruence.
    rewrite run_S. cbv beta iota zeta delta [step]. now rewrite Hn.
  - destruct (pmd s1) as [pm|] eqn:Epm.
    + rewrite run_S, entry_resume_pmd by congruence.
      rewrite run_S. cbv beta iota zeta delta [step]. now rewrite Hn.
    + rewrite run_S, entry_resume_pud; trivial.
      destruct Hd as [Hd|[Hd|Hd]]; congruence.
Qed.

(** *** The helpers *)

(** X5. The unlocked look [map_pte] takes at a leaf entry never turns away
    an entry that [check_pte] would accept: when [map_pte] answers false,
    [check_pte] on the state it leaves answers false as well, and no lock
    has been taken. *)
Theorem map_pte_refusal_is_sound (s s' : pvmw) :
  map_pte s = Some (false, s') ->
  check_pte s' = Some false /\ held s' = held s /\ ptl s' = ptl s.
Proof.
  unfold map_pte. destruct (pmd s) as [pm|]; [|discriminate].
  set (p := pte_offset_map (tables s) pm (address s)).
  set (t := kmap (set_pte (Some p) s)).
  change (tables t) with (tables s). change (flags t) with (flags s).
  intros H.
  assert (Hc : check_pte t =
               let e := pte_val (tables s) p in
               if flag_set (flags s) PVMW_MIGRATION then
                 if negb (is_swap_pte e) then Some false
                 else
                   let entry := pte_to_swp_entry e in
                   if negb (is_migration_entry entry) then Some false
                   else Some (pfn_is_match (page s)
                                (migration_entry_to_pfn entry))
               else if is_swap_pte e then
                 let entry := pte_to_swp_entry e in
                 if negb (is_device_private_entry entry) then Some false
                 else Some (pfn_is_match (page s)
                              (device_private_entry_to_pfn entry))
               else
                 if negb (pte_present e) then Some false
                 else Some (pfn_is_match (page s) (pte_pfn e)))
    by reflexivity.
  cbv zeta in Hc.
  destruct (negb (flag_set (flags s) PVMW_SYNC));
    [|inversion H].
  destruct (flag_set (flags s) PVMW_MIGRATION).
  - destruct (negb (is_swap_pte _)) eqn:E1; inversion H; subst s'.
    rewrite Hc. auto.
  - destruct (is_swap_pte _) eqn:E1.
    + destruct (negb (is_device_private_entry _)) eqn:E2;
        inversion H; subst s'. rewrite Hc. auto.
    + destruct (negb (pte_present _)) eqn:E2; inversion H; subst s'.
      rewrite Hc. auto.
Qed.

(** X6. Likewise for level 2: when [map_pmd] answers false, having taken
    no lock, [check_pmd] on the state it leaves answers 0. *)
Theorem map_pmd_refusal_is_sound (s s' : pvmw) :
  map_pmd cfg s = Some (false, s') ->
  check_pmd cfg s' = Some (0, s') /\ held s' = held s /\ ptl s' = ptl s.
Proof.
  unfold map_pmd. destruct (pud s) as [pu|]; [|discriminate].
  set (p := pmd_offset (tables s) pu (address s)).
  change (tables (set_pmd (Some p) s)) with (tables s).
  intros H.
  destruct (pmd_trans_huge (pmd_val (tables s) p)) eqn:Eh;
    [inversion H|].
  destruct (is_pmd_migration_entry cfg (pmd_val (tables s) p)) eqn:Em;
    [inversion H|].
  simpl orb in H. cbv iota in H.
  destruct (negb (pmd_present (pmd_val (tables s) p))) eqn:Ep;
    inversion H; subst s'.
  split; [|split; reflexivity].
  unfold check_pmd. simpl pmd. cbv iota.
  change (tables (set_pmd (Some p) s)) with (tables s).
  rewrite Eh, Ep.
  unfold is_pmd_migration_entry in Em. rewrite Ep in Em.
  destruct (thp_migration_supported cfg); [|reflexivity].
  simpl in Em. rewrite Em.
  now destruct (negb (flag_set _ _)).
Qed.

(** X7. [check_pte] accepts exactly what its header comment says: under the
    MigrationAware flag a migration entry for a frame of the target;
    without it a present entry, or a device-private entry, for a frame of
    the target. *)
Theorem check_pte_accepts (s : pvmw) (p : ptr) :
  pte s = Some p ->
  (check_pte s = Some true <-> pte_maps_target s (pte_val (tables s) p)).
Proof.
  intros Hp. unfold check_pte, pte_maps_target. rewrite Hp.
  destruct (flag_set (flags s) PVMW_MIGRATION);
    destruct (pte_val (tables s) p) as [|pfn|en]; simpl.
  - split; [discriminate|]. intros (en & E & _). discriminate.
  - split; [discriminate|]. intros (en & E & _). discriminate.
  - destruct (is_migration_entry en) eqn:Em; simpl.
    + split.
      * intros H. exists en. repeat split; congruence.
      * intros (en' & E & _ & H). inversion E; subst. now rewrite H.
    + split; [discriminate|].
      intros (en' & E & H & _). inversion E; subst. congruence.
  - split; [discriminate|].
    intros [(en & E & _)|(pfn & E & _)]; discriminate.
  - split.
    + intros H. right. exists pfn. split; congruence.
    + intros [(en & E & _)|(pfn' & E & H)]; [discriminate|].
      inversion E; subst. now rewrite H.
  - destruct (is_device_private_entry en) eqn:Em; simpl.
    + split.
      * intros H. left. exists en. repeat split; congruence.
      * intros [(en' & E & _ & H)|(pfn & E & _)]; [|discriminate].
        inversion E; subst. now rewrite H.
    + split; [discriminate|].
      intros [(en' & E & H & _)|(pfn & E & _)]; [|discriminate].
      inversion E; subst. congruence.
Qed.

(** X8. The answer 2 of [check_pmd] means the level-2 entry points to a
    leaf table, and it is the only answer that gives the lock back: the
    walker goes down to the leaf level holding no lock. *)
Theorem check_pmd_split_gives_lock_back (s s' : pvmw) :
  ledger_ok s ->
  check_pmd cfg s = Some (2, s') ->
  (exists p, pmd s = Some p /\ pmd_val (tables s) p = PmdTable) /\
  ptl s' = None /\ held s' = [] /\ pmd s' = pmd s.
Proof.
  unfold check_pmd, ledger_ok. intros Hl H.
  destruct (pmd s) as [p|] eqn:Ep; [|discriminate].
  destruct (pmd_val (tables s) p) as [| |pfn|en] eqn:Ev; simpl in H.
  - outcome_cases H; inversion H.
  - destruct (ptl s) as [lk|]; [|discriminate].
    inversion H; subst s'. simpl. rewrite Hl, release_head.
    split; [now exists p|auto].
  - outcome_cases H; inversion H.
  - outcome_cases H; inversion H.
Qed.

(** X9. Which frames name the target: a transparent compound page is named
    by the frame of any of its subpages and by no other frame; a normal
    page and a hugetlbfs page, compound or not, only by their own frame. *)
Theorem pfn_is_match_by_kind (pg : struct_page) (pfn : Z) :
  0 <= hpage_nr_pages pg < 2 ^ 64 ->
  0 <= page_to_pfn pg -> pfn < 2 ^ 64 ->
  pfn_is_match pg pfn =
  if negb (PageTransCompound pg) || PageHuge pg then pfn =? page_to_pfn pg
  else (page_to_pfn pg <=? pfn) && (pfn <? page_to_pfn pg + hpage_nr_pages pg).
Proof.
  intros Hnr H0 Hp. unfold pfn_is_match.
  destruct (negb (PageTransCompound pg) || PageHuge pg).
  - apply Z.eqb_sym.
  - rewrite (ulong_small (hpage_nr_pages pg)) by lia.
    rewrite Z.geb_leb.
    destruct (Z.leb_spec (page_to_pfn pg) pfn); simpl; trivial.
    rewrite ulong_small by lia.
    destruct (Z.ltb_spec (pfn - page_to_pfn pg) (hpage_nr_pages pg));
      destruct (Z.ltb_spec pfn (page_to_pfn pg + hpage_nr_pages pg));
      trivial; lia.
Qed.

(** *** The containment check *)

(** X10. [page_mapped_in_vma] gives back everything it took: whatever it
    answers, no lock is held and no leaf table is mapped when it
    returns. *)
Theorem page_mapped_in_vma_holds_nothing (fuel : nat) (pg : struct_page)
        (v : vm_area_struct) (b : bool) (s' : pvmw) :
  page_mapped_in_vma cfg fuel pg v = Done b s' -> cleaned_up s'.
Proof.
  unfold page_mapped_in_vma.
  destruct (_ || _).
  - intros H. inversion H; subst. split; reflexivity.
  - set (s := set_address _ _).
    assert (Hok : walk_ok s)
      by apply (walk_ok_fresh pg v (Z.max (__vma_address cfg pg v)
                                          (vm_start v)) PVMW_SYNC).
    pose proof (run_post cfg fuel L_entry s Hok) as P.
    unfold page_vma_mapped_walk.
    destruct (run cfg fuel L_entry s) as [[|] t| |]; intros H;
      inversion H; subst; trivial.
    destruct P as (Hl & Hk & _). now apply done_cleans.
Qed.

(** *** Finding a leaf mapping *)

(** The state in which a first call reaches the leaf level: level-3 and
    level-2 handles set, the level-2 lock taken and given back. *)
Lemma pte_level_descent (n : nat) (s : pvmw) (T : pgtables) :
  let pgd := pgd_offset T (address s) in
  let p4d := p4d_offset T pgd (address s) in
  let pu := pud_offset T p4d (address s) in
  let pm := pmd_offset T pu (address s) in
  pte s = None -> pmd s = None -> pud s = None ->
  PageHuge (page s) = false ->
  (forall t, vm_mm (vma s) t = T) ->
  pgd_present (pgd_val T pgd) = true ->
  p4d_present (p4d_val T p4d) = true ->
  pud_val T pu = PudTable ->
  pmd_val T pm = PmdTable ->
  run cfg (3 + n) L_entry s
  = run cfg n L_pte_level
        (set_ptl None
           (spin_unlock (pmd_lockptr pm)
              (pmd_lock pm (set_pmd (Some pm) (set_pud (Some pu) s))))).
Proof.
  intros pgd p4d pu pm Hpte Hpmd Hpud Hhuge HT Hpgd Hp4d Epu Epm.
  assert (Ht : forall x, vma x = vma s -> tables x = T).
  { intros x Hx. unfold tables. rewrite Hx. apply HT. }
  (* entry *)
  change (3 + n)%nat with (S (S (S n))).
  rewrite run_S.
  assert (E1 : step cfg L_entry s = Goto L_restart s).
  { cbv beta iota zeta delta [step]. rewrite Hpte, Hpmd, Hpud, Hhuge.
    reflexivity. }
  rewrite E1. clear E1.
  (* restart *)
  rewrite run_S.
  set (s2 := pmd_lock pm (set_pmd (Some pm) (set_pud (Some pu) s))).
  assert (E2 : step cfg L_restart s = Goto L_pmd_check s2).
  { cbv beta iota zeta delta [step resolve_pmd map_pmd].
    change (tables (set_pud (Some (pud_offset (tables s)
              (p4d_offset (tables s) (pgd_offset (tables s) (address s))
                 (address s)) (address s))) s)) with (tables s).
    rewrite (Ht s eq_refl). fold pgd. rewrite Hpgd. simpl negb. cbv iota.
    fold p4d. rewrite Hp4d. simpl negb. cbv iota.
    fold pu. rewrite Epu. simpl pud_trans_huge. simpl pud_present.
    simpl negb. cbv iota. simpl pud. cbv iota.
    change (address (set_pud (Some pu) s)) with (address s).
    fold pm.
    rewrite (Ht (set_pmd (Some pm) (set_pud (Some pu) s)) eq_refl), Epm.
    unfold is_pmd_migration_entry. simpl pmd_present. simpl negb.
    rewrite andb_false_r. reflexivity. }
  rewrite E2. clear E2.
  (* the level-2 entry points to a leaf table *)
  rewrite run_S.
  assert (E3 : step cfg L_pmd_check s2
               = Goto L_pte_level
                      (set_ptl None (spin_unlock (pmd_lockptr pm) s2))).
  { cbv beta iota zeta delta [step check_pmd]. simpl pmd. cbv iota.
    rewrite (Ht s2 eq_refl), Epm. reflexivity. }
  now rewrite E3.
Qed.

(** The five blocks a first call runs when the tables do not change under
    it and the address is mapped by a present leaf entry for a frame of the
    target. *)
Lemma pte_mapping_run (n : nat) (s : pvmw) (T : pgtables) (pfn : Z) :
  let pgd := pgd_offset T (address s) in
  let p4d := p4d_offset T pgd (address s) in
  let pu := pud_offset T p4d (address s) in
  let pm := pmd_offset T pu (address s) in
  let pt := pte_offset_map T pm (address s) in
  pte s = None -> pmd s = None -> pud s = None ->
  PageHuge (page s) = false ->
  (forall t, vm_mm (vma s) t = T) ->
  pgd_present (pgd_val T pgd) = true ->
  p4d_present (p4d_val T p4d) = true ->
  pud_val T pu = PudTable ->
  pmd_val T pm = PmdTable ->
  pte_val T pt = PtePresent pfn ->
  pfn_is_match (page s) pfn = true ->
  flag_set (flags s) PVMW_MIGRATION = false ->
  run cfg (5 + n) L_entry s = Done true (pte_match_state s pu pm pt).
Proof.
  intros pgd p4d pu pm pt Hpte Hpmd Hpud Hhuge HT Hpgd Hp4d Epu Epm Ept
         Hmatch Hflag.
  assert (Ht : forall x, vma x = vma s -> tables x = T).
  { intros x Hx. unfold tables. rewrite Hx. apply HT. }
  change (5 + n)%nat with (3 + S (S n))%nat.
  rewrite (pte_level_descent (S (S n)) s T Hpte Hpmd Hpud Hhuge HT
                             Hpgd Hp4d Epu Epm).
  fold pgd p4d pu pm.
  set (s3 := set_ptl None (spin_unlock (pmd_lockptr pm)
               (pmd_lock pm (set_pmd (Some pm) (set_pud (Some pu) s))))).
  (* the leaf table is mapped and locked *)
  rewrite run_S.
  assert (E4 : step cfg L_pte_level s3
               = Goto L_pte_check (pte_match_state s pu pm pt)).
  { cbv beta iota zeta delta [step map_pte]. simpl pmd. cbv iota.
    change (address s3) with (address s).
    rewrite (Ht s3 eq_refl).
    change (tables (kmap (set_pte (Some (pte_offset_map T pm (address s)))
                            s3))) with (tables s3).
    rewrite (Ht s3 eq_refl). fold pt. rewrite Ept.
    change (flags (kmap (set_pte (Some pt) s3))) with (flags s).
    rewrite Hflag. simpl is_swap_pte. simpl pte_present. simpl negb.
    destruct (negb (flag_set (flags s) PVMW_SYNC)); reflexivity. }
  rewrite E4. clear E4.
  (* the leaf entry passes the check *)
  rewrite run_S.
  assert (E5 : check_pte (pte_match_state s pu pm pt) = Some true).
  { unfold check_pte. simpl pte. cbv iota.
    rewrite (Ht (pte_match_state s pu pm pt) eq_refl), Ept.
    change (flags (pte_match_state s pu pm pt)) with (flags s).
    rewrite Hflag. simpl.
    change (page (pte_match_state s pu pm pt)) with (page s).
    now rewrite Hmatch. }
  cbv beta iota zeta delta [step]. now rewrite E5.
Qed.

(** X11. A first call finds a leaf mapping: when the tables do not change
    under it and the address it is called with is mapped, through present
    directory levels, by a present leaf entry for a frame of the target,
    the call returns true at that address with the three handles set to
    the entries of that address, the leaf table mapped once more and its
    lock the one lock added. *)
Theorem walk_finds_pte_mapping (n : nat) (s : pvmw) (T : pgtables)
        (pfn : Z) :
  let pgd := pgd_offset T (address s) in
  let p4d := p4d_offset T pgd (address s) in
  let pu := pud_offset T p4d (address s) in
  let pm := pmd_offset T pu (address s) in
  let pt := pte_offset_map T pm (address s) in
  pte s = None -> pmd s = None -> pud s = None ->
  PageHuge (page s) = false ->
  (forall t, vm_mm (vma s) t = T) ->
  pgd_present (pgd_val T pgd) = true ->
  p4d_present (p4d_val T p4d) = true ->
  pud_val T pu = PudTable ->
  pmd_val T pm = PmdTable ->
  pte_val T pt = PtePresent pfn ->
  pfn_is_match (page s) pfn = true ->
  flag_set (flags s) PVMW_MIGRATION = false ->
  exists s',
    page_vma_mapped_walk cfg (5 + n) s = Done true s' /\
    address s' = address s /\
    pud s' = Some pu /\ pmd s' = Some pm /\ pte s' = Some pt /\
    ptl s' = Some (pte_lockptr pm) /\
    held s' = pte_lockptr pm :: held s /\
    kmapped s' = S (kmapped s).
Proof.
  intros pgd p4d pu pm pt Hpte Hpmd Hpud Hhuge HT Hpgd Hp4d Epu Epm Ept
         Hmatch Hflag.
  exists (pte_match_state s pu pm pt). split.
  - apply (pte_mapping_run n s T pfn); assumption.
  - simpl. rewrite Z.eqb_refl. repeat split.
Qed.


(** X18. A first call for a page that is not a transparent huge page
    returns false when the leaf entry of its address is empty: with the
    tables unchanged under it and the directory levels present, the call
    ends within six blocks, and the lock and the leaf-table mapping it took
    on the way are given back. *)
Theorem walk_misses_empty_pte (n : nat) (s : pvmw) (T : pgtables) :
  let pgd := pgd_offset T (address s) in
  let p4d := p4d_offset T pgd (address s) in
  let pu := pud_offset T p4d (address s) in
  let pm := pmd_offset T pu (address s) in
  let pt := pte_offset_map T pm (address s) in
  pte s = None -> pmd s = None -> pud s = None ->
  PageHuge (page s) = false -> PageTransHuge (page s) = false ->
  (forall t, vm_mm (vma s) t = T) ->
  pgd_present (pgd_val T pgd) = true ->
  p4d_present (p4d_val T p4d) = true ->
  pud_val T pu = PudTable ->
  pmd_val T pm = PmdTable ->
  pte_val T pt = PteNone ->
  exists s',
    page_vma_mapped_walk cfg (6 + n) s = Done false s' /\
    address s' = address s /\ ptl s' = None /\
    held s' = held s /\ kmapped s' = kmapped s.
Proof.
  intros pgd p4d pu pm pt Hpte Hpmd Hpud Hhuge Hthp HT Hpgd Hp4d Epu Epm
         Ept.
  assert (Ht : forall x, vma x = vma s -> tables x = T).
  { intros x Hx. unfold tables. rewrite Hx. apply HT. }
  unfold page_vma_mapped_walk.
  change (6 + n)%nat with (3 + S (S (S n)))%nat.
  rewrite (pte_level_descent (S (S (S n))) s T Hpte Hpmd Hpud Hhuge HT
                             Hpgd Hp4d Epu Epm).
  fold pgd p4d pu pm.
  set (s3 := set_ptl None (spin_unlock (pmd_lockptr pm)
               (pmd_lock pm (set_pmd (Some pm) (set_pud (Some pu) s))))).
  set (s4 := kmap (set_pte (Some pt) s3)).
  assert (Hnext : forall k t, page t = page s ->
            run cfg (S k) L_next_pte t
            = Done false (page_vma_mapped_walk_done t)).
  { intros k t Hpg. rewrite run_S. cbv beta iota zeta delta [step].
    rewrite Hpg, Hthp. reflexivity. }
  assert (Hempty : forall t, vma t = vma s -> pte t = Some pt ->
            check_pte t = Some false).
  { intros t Hv Hp. unfold check_pte. rewrite Hp, (Ht t Hv), Ept.
    simpl. now destruct (flag_set (flags t) PVMW_MIGRATION). }
  rewrite run_S.
  assert (E4 : step cfg L_pte_level s3 =
               if negb (flag_set (flags s) PVMW_SYNC)
               then Goto L_next_pte s4
               else Goto L_pte_check
                      (spin_lock (pte_lockptr pm)
                         (set_ptl (Some (pte_lockptr pm)) s4))).
  { cbv beta iota zeta delta [step map_pte]. simpl pmd. cbv iota.
    change (address s3) with (address s).
    rewrite (Ht s3 eq_refl). fold pt. fold s4.
    rewrite (Ht s4 eq_refl), Ept.
    change (flags s4) with (flags s).
    destruct (negb (flag_set (flags s) PVMW_SYNC)); [|reflexivity].
    now destruct (flag_set (flags s) PVMW_MIGRATION). }
  rewrite E4. clear E4.
  destruct (negb (flag_set (flags s) PVMW_SYNC)).
  - rewrite Hnext by reflexivity. eexists. split; [reflexivity|].
    simpl. rewrite Z.eqb_refl. repeat split.
  - rewrite run_S. cbv beta iota zeta delta [step].
    rewrite Hempty by reflexivity.
    rewrite Hnext by reflexivity. eexists. split; [reflexivity|].
    simpl. rewrite !Z.eqb_refl. repeat split.
Qed.

(** X19. The first call for a hugetlbfs page is decided in one block, by
    the dedicated lookup alone; when it returns true, the leaf handle is
    the entry the lookup gave, the level-2 and level-3 handles are still
    NULL, the hugetlbfs lock of that entry is the one lock added, and no
    leaf table has been mapped. *)
Theorem hugetlb_first_call (n : nat) (s : pvmw) :
  pte s = None -> pmd s = None -> pud s = None ->
  PageHuge (page s) = true ->
  (exists b s', page_vma_mapped_walk cfg (S n) s = Done b s') /\
  (forall s', page_vma_mapped_walk cfg (S n) s = Done true s' ->
     exists p,
       huge_pte_offset (tables s) (address s) (page_size (page s)) = Some p /\
       pte s' = Some p /\ pmd s' = None /\ pud s' = None /\
       address s' = address s /\
       ptl s' = Some (huge_pte_lockptr p) /\
       held s' = huge_pte_lockptr p :: held s /\
       kmapped s' = kmapped s).
Proof.
  intros Hpte Hpmd Hpud Hhuge. unfold page_vma_mapped_walk.
  rewrite run_S. cbv beta iota zeta delta [step not_found].
  rewrite Hpte, Hpmd, Hpud, Hhuge.
  simpl is_null. simpl negb. simpl andb. cbv iota.
  destruct (huge_pte_offset _ _ _) as [p|].
  - destruct (check_pte _) as [[|]|] eqn:Ec.
    + split; [eauto|]. intros s' H. inversion H; subst s'.
      exists p. simpl. rewrite Hpmd, Hpud. repeat split.
    + split; [eauto|]. discriminate.
    + exfalso. unfold check_pte in Ec. simpl in Ec.
      repeat match type of Ec with
             | context [if ?b then _ else _] => destruct b
             end; discriminate.
  - split; [eauto|]. discriminate.
Qed.

Lemma check_pte_true_not_none (s : pvmw) (p : ptr) :
  pte s = Some p -> check_pte s = Some true ->
  pte_none (pte_val (tables s) p) = false.
Proof.
  unfold check_pte. intros -> H.
  destruct (pte_val (tables s) p); trivial. simpl in H.
  destruct (flag_set (flags s) PVMW_MIGRATION); discriminate.
Qed.

(** X20. Calls compose along a leaf table: resumed on a state that reports
    a leaf entry of a transparent huge page with its lock held, the walker
    reports the very next leaf entry, one page further, when the walk is
    not exhausted there, the address is not on a leaf-table boundary and
    that entry passes [check_pte]; it takes no new lock and maps no new
    table. *)
Theorem walk_resumes_at_next_leaf_entry (n : nat) (s : pvmw) (p : ptr) :
  let s1 := set_address (ulong (address s + PAGE_SIZE cfg)) s in
  let s2 := set_pte (Some (p + 1)) s1 in
  pte s = Some p -> ptl s <> None ->
  PageTransHuge (page s) = true -> PageHuge (page s) = false ->
  exhausted cfg s1 = false ->
  (address s1 mod PMD_SIZE cfg =? 0) = false ->
  check_pte s2 = Some true ->
  page_vma_mapped_walk cfg (4 + n) s = Done true s2.
Proof.
  intros s1 s2 Hpte Hptl Hthp Hhuge Hex Hb Hc.
  unfold page_vma_mapped_walk.
  change (4 + n)%nat with (S (S (S (S n)))).
  rewrite run_S, entry_resume_pte by congruence.
  rewrite run_S.
  assert (E2 : step cfg L_next_pte s = Goto L_pte_skip s).
  { cbv beta iota zeta delta [step]. now rewrite Hthp, Hhuge. }
  rewrite E2. clear E2. rewrite run_S.
  assert (E3 : step cfg L_pte_skip s = Goto L_pte_check s2).
  { cbv beta iota zeta delta [step]. fold s1. rewrite Hex, Hb.
    change (pte s1) with (pte s). rewrite Hpte. fold s2.
    rewrite (check_pte_true_not_none s2 (p + 1) eq_refl Hc).
    change (ptl s2) with (ptl s).
    destruct (ptl s); [reflexivity|congruence]. }
  rewrite E3. clear E3. rewrite run_S.
  cbv beta iota zeta delta [step]. now rewrite Hc.
Qed.

(** X23. At a leaf-table boundary a resumed call gives the table and the
    lock back before it restarts, and keeps the leaf handle: resumed on a
    caller-legal state that reports a leaf entry of a transparent huge
    page, when the next address is a multiple of [PMD_SIZE] and the walk is
    not exhausted there, the call arrives at [restart] at that address with
    no lock held, [ptl] NULL and no leaf table mapped, and with [pte] still
    the handle it was resumed with. *)
Theorem boundary_restart_keeps_leaf_handle (s : pvmw) (p : ptr) :
  let s1 := set_address (ulong (address s + PAGE_SIZE cfg)) s in
  walk_ok s -> pte s = Some p ->
  PageTransHuge (page s) = true -> PageHuge (page s) = false ->
  exhausted cfg s1 = false ->
  (address s1 mod PMD_SIZE cfg =? 0) = true ->
  exists s',
    reach cfg 3 L_entry s = Some (L_restart, s') /\
    address s' = address s1 /\
    held s' = [] /\ ptl s' = None /\ kmapped s' = O /\
    pte s' = Some p /\ pmd s' = pmd s /\ pud s' = pud s.
Proof.
  intros s1 (Hl & (Hk & _) & _) Hpte Hth Hh Hex Hb.
  exists (drop_ptl (pte_unmap s1)).
  destruct (drop_ptl_fields (pte_unmap s1))
    as (F1 & F2 & F3 & F4 & F5 & F6 & F7 & _).
  split.
  - cbn [reach]. rewrite (entry_resume_pte cfg s) by congruence.
    assert (E2 : step cfg L_next_pte s = Goto L_pte_skip s).
    { cbv beta iota zeta delta [step]. now rewrite Hth, Hh. }
    rewrite E2.
    assert (E3 : step cfg L_pte_skip s
                 = Goto L_restart (drop_ptl (pte_unmap s1))).
    { cbv beta iota zeta delta [step]. fold s1. now rewrite Hex, Hb. }
    now rewrite E3.
  - split; [exact F4|]. split.
    + rewrite F2. simpl. unfold ledger_ok in Hl. rewrite Hl.
      destruct (ptl s); [apply release_head|reflexivity].
    + split; [exact F1|]. split; [rewrite F3; simpl; lia|].
      split; [rewrite F5; exact Hpte|]. split; [exact F6|exact F7].
Qed.

(** *** The address only moves forward *)

Lemma step_goto_le (l l' : label) (s s' : pvmw) :
  no_wrap cfg (vma s) -> in_region s ->
  step cfg l s = Goto l' s' -> address s <= address s'.
Proof.
  intros (Hps & Hhs & H0 & Hw1 & Hw2) Hin H. destruct l.
  - cbv beta iota zeta delta [step not_found] in H. outcome_cases H;
      inversion H; subst; lia.
  - cbv beta iota zeta delta [step not_found] in H. outcome_cases H;
      apply resolve_pmd_place in H; destruct H as [[_ Hp] _];
      simpl in Hp; lia.
  - cbv beta iota zeta delta [step] in H.
    pose proof (check_pmd_cases cfg s) as Hc.
    destruct (check_pmd cfg s) as [[r t]|]; [|discriminate].
    destruct Hc as [_ [(-> & ->)|[(-> & ->)|(-> & lk & El & ->)]]];
      simpl in H; inversion H; subst; simpl; lia.
  - cbv beta iota zeta delta [step not_found] in H. outcome_cases H.
    inversion H; subst. lia.
  - cbv beta iota zeta delta [step not_found] in H.
    set (s1 := set_address (ulong (address s + HPAGE_PMD_SIZE cfg)) s) in *.
    destruct (exhausted cfg s1) eqn:Hex; [discriminate|].
    destruct (skip_advances cfg s s1 _ Hin Hhs Hw2 H0 eq_refl Hex)
      as [Hv Ha].
    destruct (drop_ptl_place s1) as [_ Ha'].
    clearbody s1.
    outcome_cases H; inversion H; subst; simpl; lia.
  - cbv beta iota zeta delta [step] in H.
    destruct (map_pte s) as [[[|] t]|] eqn:E; try discriminate;
      inversion H; subst; apply map_pte_place in E; destruct E; lia.
  - cbv beta iota zeta delta [step] in H. outcome_cases H.
    inversion H; subst. lia.
  - cbv beta iota zeta delta [step not_found] in H. outcome_cases H.
    inversion H; subst. lia.
  - cbv beta iota zeta delta [step not_found] in H.
    set (s1 := set_address (ulong (address s + PAGE_SIZE cfg)) s) in *.
    destruct (exhausted cfg s1) eqn:Hex; [discriminate|].
    destruct (skip_advances cfg s s1 _ Hin Hps Hw1 H0 eq_refl Hex)
      as [Hv Ha].
    destruct (drop_ptl_place (pte_unmap s1)) as [_ Ha'].
    clearbody s1.
    outcome_cases H; inversion H; subst; simpl; simpl in Ha'; lia.
Qed.

(** X13. Within a region the walk only moves forward: a call entered at an
    address of the region reports, when it returns true, an address that
    is not below the one it was entered with. *)
Theorem walk_address_never_decreases (fuel : nat) (s s' : pvmw) :
  no_wrap cfg (vma s) -> in_region s ->
  page_vma_mapped_walk cfg fuel s = Done true s' ->
  address s <= address s'.
Proof.
  unfold page_vma_mapped_walk. generalize L_entry as l. revert s.
  induction fuel as [|n IH]; intros s l Hw Hin H; [discriminate|].
  rewrite run_S in H.
  destruct (step cfg l s) as [b t|l1 t|] eqn:E; try discriminate.
  - inversion H; subst. destruct (step_true_place cfg _ _ _ E) as [_ Ha].
    lia.
  - destruct (step_goto cfg _ _ _ _ Hw Hin E) as (Hv & Hin' & _).
    pose proof (step_goto_le _ _ _ _ Hw Hin E) as Hle.
    rewrite <- Hv in Hw. pose proof (IH _ _ Hw Hin' H). lia.
Qed.

End FurtherProperties.

(** ** The layout of arch/arc/include/asm/highmem.h *)

Lemma arc_bases (c : arc_config) :
  arc_layout_ok c ->
  0 < 2 ^ PAGE_SHIFT c /\
  FIXMAP_BASE c = PAGE_OFFSET c - 2 * PGDIR_SIZE c /\
  PKMAP_BASE c = PAGE_OFFSET c - PGDIR_SIZE c.
Proof.
  intros (Hs & Hp & Ho & Hb).
  assert (HP : 0 < 2 ^ PAGE_SHIFT c) by (apply Z.pow_pos_nonneg; lia).
  assert (Hf : FIXMAP_BASE c = PAGE_OFFSET c - 2 * PGDIR_SIZE c).
  { unfold FIXMAP_BASE, FIXMAP_SIZE, PKMAP_SIZE, ulong32.
    rewrite (Z.mod_small (PAGE_OFFSET c - PGDIR_SIZE c)) by lia.
    rewrite Z.mod_small by lia. lia. }
  repeat split; trivial.
  unfold PKMAP_BASE, FIXMAP_SIZE, ulong32. rewrite Hf.
  rewrite Z.mod_small by lia. lia.
Qed.

Lemma slot_offset (c : arc_config) (nr : Z) :
  arc_layout_ok c ->
  0 <= nr < Z.shiftr (PGDIR_SIZE c) (PAGE_SHIFT c) ->
  ulong32 (Z.shiftl nr (PAGE_SHIFT c)) = nr * 2 ^ PAGE_SHIFT c /\
  0 <= nr * 2 ^ PAGE_SHIFT c < PGDIR_SIZE c.
Proof.
  intros Hok Hnr. destruct (arc_bases c Hok) as (HP & _).
  destruct Hok as (Hs & Hp & Ho & Hb).
  rewrite Z.shiftr_div_pow2 in Hnr by lia.
  rewrite Z.shiftl_mul_pow2 by lia.
  pose proof (Z.mul_div_le (PGDIR_SIZE c) (2 ^ PAGE_SHIFT c) HP) as Hd.
  assert (Hr : 0 <= nr * 2 ^ PAGE_SHIFT c < PGDIR_SIZE c) by nia.
  split; trivial. unfold ulong32. apply Z.mod_small. lia.
Qed.

(** X14. The fixmap area and the pkmap area lie one after the other and
    end where the kernel begins: [FIXMAP_BASE + FIXMAP_SIZE = PKMAP_BASE]
    and [PKMAP_BASE + PKMAP_SIZE = PAGE_OFFSET], without wrapping. *)
Theorem arc_areas_end_at_page_offset (c : arc_config) :
  arc_layout_ok c ->
  0 <= FIXMAP_BASE c /\
  FIXMAP_BASE c + FIXMAP_SIZE c = PKMAP_BASE c /\
  PKMAP_BASE c + PKMAP_SIZE c = PAGE_OFFSET c.
Proof.
  intros Hok. destruct (arc_bases c Hok) as (_ & Hf & Hk).
  destruct Hok as (Hs & Hp & Ho & Hb).
  unfold FIXMAP_SIZE, PKMAP_SIZE. lia.
Qed.

(** X15. [PKMAP_NR] undoes [PKMAP_ADDR]: every slot number below
    [LAST_PKMAP] gets an address inside the pkmap area, below
    [PAGE_OFFSET], from which the slot number is read back. *)
Theorem pkmap_nr_of_addr (c : arc_config) (nr : Z) :
  arc_layout_ok c ->
  0 <= nr < LAST_PKMAP c ->
  PKMAP_BASE c <= PKMAP_ADDR c nr < PAGE_OFFSET c /\
  PKMAP_NR c (PKMAP_ADDR c nr) = nr.
Proof.
  intros Hok Hnr. destruct (arc_bases c Hok) as (HP & _ & Hk).
  destruct (slot_offset c nr Hok Hnr) as [Hsl Hr].
  pose proof Hok as (Hs & Hp & Ho & Hb).
  assert (Ha : PKMAP_ADDR c nr = PKMAP_BASE c + nr * 2 ^ PAGE_SHIFT c).
  { unfold PKMAP_ADDR. rewrite Hsl. unfold ulong32.
    apply Z.mod_small. lia. }
  split; [lia|].
  unfold PKMAP_NR. rewrite Ha.
  replace (PKMAP_BASE c + nr * 2 ^ PAGE_SHIFT c - PKMAP_BASE c)
    with (nr * 2 ^ PAGE_SHIFT c) by lia.
  unfold ulong32. rewrite Z.mod_small by lia.
  rewrite Z.shiftr_div_pow2 by lia. apply Z.div_mul. lia.
Qed.

(** X16. [KM_TYPE_NR] slots for each of [NR_CPUS] CPUs fit in the fixmap
    area: every slot number below [KM_TYPE_NR * NR_CPUS] has its
    [FIXMAP_ADDR] at or above [FIXMAP_BASE] and below [PKMAP_BASE]. *)
Theorem fixmap_addr_stays_in_fixmap (c : arc_config) (nr : Z) :
  arc_layout_ok c ->
  0 < NR_CPUS c -> 0 <= nr < KM_TYPE_NR c * NR_CPUS c ->
  FIXMAP_BASE c <= FIXMAP_ADDR c nr < PKMAP_BASE c.
Proof.
  intros Hok Hn Hty. destruct (arc_bases c Hok) as (HP & Hf & Hk).
  pose proof (Z.mul_div_le (Z.shiftr (FIXMAP_SIZE c) (PAGE_SHIFT c))
                           (NR_CPUS c) Hn) as Hd.
  fold (KM_TYPE_NR c) in Hd.
  assert (Hnr : 0 <= nr < Z.shiftr (PGDIR_SIZE c) (PAGE_SHIFT c)).
  { unfold FIXMAP_SIZE in Hd. nia. }
  destruct (slot_offset c _ Hok Hnr) as [Hsl Hr].
  pose proof Hok as (Hs & Hp & Ho & Hb).
  unfold FIXMAP_ADDR. rewrite Hsl. unfold ulong32.
  rewrite Z.mod_small by lia. lia.
Qed.

(** X17. [LAST_PKMAP_MASK] wraps a slot counter into the pkmap slots: when
    the number of slots is a power of two, masking a counter gives its
    remainder modulo [LAST_PKMAP], a slot number below [LAST_PKMAP]. *)
Theorem last_pkmap_mask_wraps (c : arc_config) (k x : Z) :
  arc_layout_ok c ->
  0 <= k -> LAST_PKMAP c = 2 ^ k ->
  Z.land x (LAST_PKMAP_MASK c) = x mod LAST_PKMAP c /\
  0 <= Z.land x (LAST_PKMAP_MASK c) < LAST_PKMAP c.
Proof.
  intros Hok Hk Hl. destruct (arc_bases c Hok) as (HP & _).
  pose proof Hok as (Hs & Hp & Ho & Hb).
  assert (Hpos : 0 < 2 ^ k) by (apply Z.pow_pos_nonneg; lia).
  assert (Hle : LAST_PKMAP c <= PGDIR_SIZE c).
  { unfold LAST_PKMAP, PKMAP_SIZE. rewrite Z.shiftr_div_pow2 by lia.
    apply Z.div_le_upper_bound; nia. }
  assert (Hm : LAST_PKMAP_MASK c = Z.ones k).
  { unfold LAST_PKMAP_MASK, ulong32. rewrite Hl in *.
    rewrite Z.mod_small by lia. rewrite Z.ones_equiv. lia. }
  rewrite Hm, Z.land_ones, Hl by lia.
  split; [reflexivity|]. apply Z.mod_pos_bound. lia.
Qed.

(** ** The further properties on explicit inputs *)

Example walk_far_first_call :
  page_vma_mapped_walk x86_64 8 walk_far = Done true walk_far_found.
Proof. reflexivity. Qed.

(** X1, on an input: the ordinary page of [region_far]. *)
Lemma walk_true_holds_one_lock_witness :
  exists l, ptl walk_far_found = Some l /\ held walk_far_found = [l].
Proof.
  exact (walk_true_holds_one_lock x86_64 8 walk_far walk_far_found
           (walk_ok_fresh far_page region_far 1077936128 0)
           (or_intror (conj eq_refl (conj eq_refl eq_refl)))
           eq_refl).
Defined.

(** X2, on the same input. *)
Lemma walk_true_is_backed_witness :
  backed_match x86_64 walk_far_found.
Proof.
  exact (walk_true_is_backed x86_64 8 walk_far walk_far_found eq_refl).
Defined.

(** X3, on the same input. *)
Lemma walk_keeps_target_witness :
  same_target walk_far walk_far_found.
Proof.
  exact (walk_keeps_target x86_64 8 walk_far walk_far_found true eq_refl).
Defined.

(** X4, on the same input: the call after the match. *)
Lemma ordinary_page_match_is_final_witness :
  page_vma_mapped_walk x86_64 2 walk_far_found
  = Done false (page_vma_mapped_walk_done walk_far_found).
Proof.
  exact (ordinary_page_match_is_final x86_64 8 walk_far walk_far_found
           eq_refl eq_refl 0%nat).
Defined.

(** X5, on an input: an empty leaf entry looked at without the Sync
    flag. *)
Lemma map_pte_refusal_is_sound_witness :
  check_pte (kmap (set_pte (Some 262144) walk_at_empty_pte)) = Some false /\
  held (kmap (set_pte (Some 262144) walk_at_empty_pte))
  = held walk_at_empty_pte /\
  ptl (kmap (set_pte (Some 262144) walk_at_empty_pte))
  = ptl walk_at_empty_pte.
Proof.
  exact (map_pte_refusal_is_sound walk_at_empty_pte
           (kmap (set_pte (Some 262144) walk_at_empty_pte)) eq_refl).
Defined.

(** X6, on an input: an empty level-2 entry. *)
Lemma map_pmd_refusal_is_sound_witness :
  check_pmd x86_64 (set_pmd (Some 512) walk_at_empty_pmd)
  = Some (0, set_pmd (Some 512) walk_at_empty_pmd) /\
  held (set_pmd (Some 512) walk_at_empty_pmd) = held walk_at_empty_pmd /\
  ptl (set_pmd (Some 512) walk_at_empty_pmd) = ptl walk_at_empty_pmd.
Proof.
  exact (map_pmd_refusal_is_sound x86_64 walk_at_empty_pmd
           (set_pmd (Some 512) walk_at_empty_pmd) eq_refl).
Defined.

(** X7, on an input: the migration placeholder of [mm_migrating] under the
    flag. *)
Lemma check_pte_accepts_witness :
  check_pte (walk_migrating PVMW_MIGRATION) = Some true <->
  pte_maps_target (walk_migrating PVMW_MIGRATION)
    (PteSwap {| swp_type := SwpMigration; swp_offset := 600 |}).
Proof.
  exact (check_pte_accepts (walk_migrating PVMW_MIGRATION) 262144 eq_refl).
Defined.

(** X8, on an input: the level-2 entry of a mapped leaf table. *)
Lemma check_pmd_split_gives_lock_back_witness :
  (exists p, pmd walk_at_table_pmd = Some p /\
             pmd_val (tables walk_at_table_pmd) p = PmdTable) /\
  ptl (set_ptl None (spin_unlock (pmd_lockptr 512) walk_at_table_pmd))
  = None /\
  held (set_ptl None (spin_unlock (pmd_lockptr 512) walk_at_table_pmd))
  = [] /\
  pmd (set_ptl None (spin_unlock (pmd_lockptr 512) walk_at_table_pmd))
  = pmd walk_at_table_pmd.
Proof.
  exact (check_pmd_split_gives_lock_back x86_64 walk_at_table_pmd
           (set_ptl None (spin_unlock (pmd_lockptr 512) walk_at_table_pmd))
           eq_refl eq_refl).
Defined.

(** X9, on inputs: a subpage frame of [thp_page], and a frame inside the
    hugetlbfs page that is not its own. *)
Lemma pfn_is_match_by_kind_witness :
  pfn_is_match thp_page 600 = true /\ pfn_is_match hugetlb_page 2049 = false.
Proof.
  split.
  - exact (pfn_is_match_by_kind thp_page 600
             ltac:(simpl; lia) ltac:(simpl; lia) ltac:(lia)).
  - exact (pfn_is_match_by_kind hugetlb_page 2049
             ltac:(simpl; lia) ltac:(simpl; lia) ltac:(lia)).
Defined.

(** X10, on an input: the containment check of the ordinary page. *)
Lemma page_mapped_in_vma_holds_nothing_witness :
  page_mapped_in_vma x86_64 8 far_page region_far
  = Done true walk_far_checked /\
  cleaned_up walk_far_checked.
Proof.
  assert (H : page_mapped_in_vma x86_64 8 far_page region_far
              = Done true walk_far_checked) by reflexivity.
  split; [exact H|].
  exact (page_mapped_in_vma_holds_nothing x86_64 8 far_page region_far
           true walk_far_checked H).
Defined.

(** X11, on an input: the first call for the ordinary page. *)
Lemma walk_finds_pte_mapping_witness :
  exists s',
    page_vma_mapped_walk x86_64 5 walk_far = Done true s' /\
    address s' = address walk_far /\
    pud s' = Some 1 /\ pmd s' = Some 514 /\ pte s' = Some 263168 /\
    ptl s' = Some (pte_lockptr 514) /\
    held s' = pte_lockptr 514 :: held walk_far /\
    kmapped s' = S (kmapped walk_far).
Proof.
  exact (walk_finds_pte_mapping x86_64 0 walk_far (mm_far O) 900
           eq_refl eq_refl eq_refl eq_refl (fun _ => eq_refl)
           eq_refl eq_refl eq_refl eq_refl eq_refl eq_refl eq_refl).
Defined.


(** X13, on an input: the call that crosses into the second leaf table of
    [region_straddle]. *)
Lemma walk_address_never_decreases_witness :
  in_region walk_before_boundary /\
  address walk_before_boundary <= address walk_after_boundary.
Proof.
  assert (Hw : no_wrap x86_64 (vma walk_before_boundary)).
  { unfold no_wrap. simpl. lia. }
  assert (Hin : in_region walk_before_boundary).
  { unfold in_region. simpl. lia. }
  split; [exact Hin|].
  exact (walk_address_never_decreases x86_64 8 walk_before_boundary
           walk_after_boundary Hw Hin eq_refl).
Defined.

(** X21, on an input: the first call for the ordinary page. *)
Lemma walk_returns_witness :
  exists b s',
    page_vma_mapped_walk x86_64 (S (measure L_entry walk_far)) walk_far
    = Done b s'.
Proof.
  assert (Hw : no_wrap x86_64 (vma walk_far)).
  { unfold no_wrap. simpl. lia. }
  assert (Hin : in_region walk_far).
  { unfold in_region. simpl. lia. }
  exact (walk_returns x86_64 walk_far Hw Hin
           (or_intror (conj eq_refl (conj eq_refl eq_refl)))).
Defined.

Lemma arc_default_ok : arc_layout_ok arc_default.
Proof. unfold arc_layout_ok. simpl. lia. Qed.

(** X14, on the default layout: the fixmap area at 0x7fc00000, the pkmap
    area at 0x7fe00000, the kernel at 0x80000000. *)
Lemma arc_areas_end_at_page_offset_witness :
  FIXMAP_BASE arc_default = 2143289344 /\
  PKMAP_BASE arc_default = 2145386496 /\
  0 <= FIXMAP_BASE arc_default /\
  FIXMAP_BASE arc_default + FIXMAP_SIZE arc_default = PKMAP_BASE arc_default /\
  PKMAP_BASE arc_default + PKMAP_SIZE arc_default = PAGE_OFFSET arc_default.
Proof.
  split; [reflexivity|]. split; [reflexivity|].
  exact (arc_areas_end_at_page_offset arc_default arc_default_ok).
Defined.

(** X15, on the default layout: slot 5. *)
Lemma pkmap_nr_of_addr_witness :
  PKMAP_BASE arc_default <= PKMAP_ADDR arc_default 5
    < PAGE_OFFSET arc_default /\
  PKMAP_NR arc_default (PKMAP_ADDR arc_default 5) = 5.
Proof.
  exact (pkmap_nr_of_addr arc_default 5 arc_default_ok
           ltac:(vm_compute; split; [discriminate|reflexivity])).
Defined.

(** X16, on the default layout: 64 slots for each of 4 CPUs, slot 67. *)
Lemma fixmap_addr_stays_in_fixmap_witness :
  KM_TYPE_NR arc_default = 64 /\
  FIXMAP_BASE arc_default <= FIXMAP_ADDR arc_default 67
    < PKMAP_BASE arc_default.
Proof.
  split; [reflexivity|].
  exact (fixmap_addr_stays_in_fixmap arc_default 67 arc_default_ok
           ltac:(reflexivity)
           ltac:(vm_compute; split; [discriminate|reflexivity])).
Defined.

(** X17, on the default layout: 256 slots, counter 300. *)
Lemma last_pkmap_mask_wraps_witness :
  Z.land 300 (LAST_PKMAP_MASK arc_default) = 300 mod LAST_PKMAP arc_default /\
  0 <= Z.land 300 (LAST_PKMAP_MASK arc_default) < LAST_PKMAP arc_default.
Proof.
  exact (last_pkmap_mask_wraps arc_default 8 300 arc_default_ok
           ltac:(lia) eq_refl).
Defined.

(** X18, on an input: the ordinary page where another page is mapped. *)
Lemma walk_misses_empty_pte_witness :
  exists s',
    page_vma_mapped_walk x86_64 6 walk_far_unmapped = Done false s' /\
    address s' = address walk_far_unmapped /\ ptl s' = None /\
    held s' = held walk_far_unmapped /\
    kmapped s' = kmapped walk_far_unmapped.
Proof.
  exact (walk_misses_empty_pte x86_64 0 walk_far_unmapped (mm_full_table O)
           eq_refl eq_refl eq_refl eq_refl eq_refl (fun _ => eq_refl)
           eq_refl eq_refl eq_refl eq_refl eq_refl).
Defined.

(** X19, on an input: the hugetlbfs page of [mm_hugetlb]. *)
Lemma hugetlb_first_call_witness :
  page_vma_mapped_walk x86_64 1 walk_hugetlb = Done true walk_hugetlb_found /\
  exists p,
    huge_pte_offset (tables walk_hugetlb) (address walk_hugetlb)
                    (page_size (page walk_hugetlb)) = Some p /\
    pte walk_hugetlb_found = Some p /\
    pmd walk_hugetlb_found = None /\ pud walk_hugetlb_found = None /\
    address walk_hugetlb_found = address walk_hugetlb /\
    ptl walk_hugetlb_found = Some (huge_pte_lockptr p) /\
    held walk_hugetlb_found = huge_pte_lockptr p :: held walk_hugetlb /\
    kmapped walk_hugetlb_found = kmapped walk_hugetlb.
Proof.
  assert (H : page_vma_mapped_walk x86_64 1 walk_hugetlb
              = Done true walk_hugetlb_found) by reflexivity.
  split; [exact H|].
  exact (proj2 (hugetlb_first_call x86_64 0 walk_hugetlb
                  eq_refl eq_refl eq_refl eq_refl)
               walk_hugetlb_found H).
Defined.

(** X23, on an input: the second call for [pud_thp_page] in
    [region_pud_mixed]. *)
Lemma boundary_restart_keeps_leaf_handle_witness :
  exists s',
    reach x86_64 3 L_entry walk_pud_mixed_leaf = Some (L_restart, s') /\
    address s' = 1075838976 /\
    held s' = [] /\ ptl s' = None /\ kmapped s' = O /\
    pte s' = Some 262655 /\ pmd s' = pmd walk_pud_mixed_leaf /\
    pud s' = pud walk_pud_mixed_leaf.
Proof.
  assert (Hok : walk_ok walk_pud_mixed_leaf).
  { unfold walk_ok, ledger_ok, kmap_ok. simpl.
    repeat split; auto; try discriminate. intros _. left. discriminate. }
  exact (boundary_restart_keeps_leaf_handle x86_64 walk_pud_mixed_leaf 262655
           Hok eq_refl eq_refl eq_refl eq_refl eq_refl).
Defined.

(** X20, on an input: from the first to the second leaf entry of the
    second table of [region_straddle]. *)
Lemma walk_resumes_at_next_leaf_entry_witness :
  page_vma_mapped_walk x86_64 4 walk_after_boundary
  = Done true walk_after_boundary_next.
Proof.
  exact (walk_resumes_at_next_leaf_entry x86_64 0 walk_after_boundary 262144
           eq_refl ltac:(discriminate) eq_refl eq_refl eq_refl eq_refl
           eq_refl).
Defined.
